(** * extract-campground: a shallow embedding of [scripts/extract-campground.py]

    The script segments the text of one guidebook page into campground
    entries, parses the labelled fields of one entry with regular
    expressions, attributes hyperlinks to fields by vertical position, asks a
    places service for coordinates and merges the record into a JSON store.

    Conventions of the embedding:
    - a Python [str] is a [string]; a character is a code point below 256
      (Latin-1), which is closed under [str.lower] and [str.strip];
    - a Python [dict] is a [gmap string _]; [None] is the atom [ANone];
    - page coordinates and JSON numbers are exact rationals ([Qc]);
    - the PDF library is outside the script: a page is given by the text,
      the positioned words and the link annotations it yields;
    - printing, the store file and exceptions are threaded through a small
      monad ([M]). *)

From Stdlib Require Import Ascii String QArith Qcanon Qcabs.
From stdpp Require Import gmap strings list fin_maps numbers.

Close Scope Q_scope.
Close Scope Qc_scope.

Local Open Scope string_scope.
Local Open Scope list_scope.
Local Open Scope nat_scope.

(** ** Python string operations *)

Module PyStr.

Definition nl_char : ascii := "010"%char.
Definition nl : string := String nl_char "".

(** [str.isspace] for one character, restricted to code points below 256:
    TAB..CR, FS..US, SPACE, NEL and NBSP. *)
Definition is_space (c : ascii) : bool :=
  let n := nat_of_ascii c in
  ((9 <=? n) && (n <=? 13)) || ((28 <=? n) && (n <=? 32))
  || (n =? 133) || (n =? 160).

Definition is_upper_AZ (c : ascii) : bool :=
  let n := nat_of_ascii c in (65 <=? n) && (n <=? 90).

Definition is_lower_az (c : ascii) : bool :=
  let n := nat_of_ascii c in (97 <=? n) && (n <=? 122).

Definition is_dot (c : ascii) : bool := Ascii.eqb c ".".

(** [s.lstrip(chars)] and [s.rstrip(chars)], the set of characters given
    as a predicate. *)
Fixpoint lstrip_by (p : ascii → bool) (s : string) : string :=
  match s with
  | String c s' => if p c then lstrip_by p s' else s
  | EmptyString => EmptyString
  end.

Fixpoint rstrip_by (p : ascii → bool) (s : string) : string :=
  match s with
  | String c s' =>
      match rstrip_by p s' with
      | EmptyString => if p c then EmptyString else String c EmptyString
      | r => String c r
      end
  | EmptyString => EmptyString
  end.

(** [s.strip()] *)
Definition strip (s : string) : string := lstrip_by is_space (rstrip_by is_space s).

(** [s.rstrip('.')] *)
Definition rstrip_dot (s : string) : string := rstrip_by is_dot s.

(** [s.lower()] on Latin-1: A-Z and the accented capitals U+00C0..U+00DE
    (U+00D7, the multiplication sign, apart) move up by 32. *)
Definition lower_char (c : ascii) : ascii :=
  let n := nat_of_ascii c in
  if ((65 <=? n) && (n <=? 90))
     || ((192 <=? n) && (n <=? 222) && negb (n =? 215))
  then ascii_of_nat (n + 32) else c.

Fixpoint lower (s : string) : string :=
  match s with
  | String c s' => String (lower_char c) (lower s')
  | EmptyString => EmptyString
  end.

(** [s.startswith(t)] *)
Definition startswith (s t : string) : bool := String.prefix t s.

(** [t in s] *)
Fixpoint contains (t s : string) : bool :=
  String.prefix t s
  || match s with
     | String _ s' => contains t s'
     | EmptyString => false
     end.

(** [s.split(sep)] for a non-empty separator.  [skip] counts the characters
    of a separator just recognised that are still to be passed over. *)
Fixpoint split_go (sep : string) (skip : nat) (s : string) : list string :=
  match s with
  | EmptyString => [EmptyString]
  | String c s' =>
      match skip with
      | S k => split_go sep k s'
      | O =>
          if String.prefix sep s
          then EmptyString :: split_go sep (String.length sep - 1) s'
          else match split_go sep 0 s' with
               | h :: t => String c h :: t
               | [] => [String c EmptyString]
               end
      end
  end.

Definition split (sep s : string) : list string := split_go sep 0 s.

(** [sep.join(l)] *)
Fixpoint join (sep : string) (l : list string) : string :=
  match l with
  | [] => EmptyString
  | [x] => x
  | x :: l' => x +:+ sep +:+ join sep l'
  end.

(** [text.split('\n')] and ['\n'.join(lines)] *)
Definition lines (text : string) : list string := split nl text.
Definition unlines (l : list string) : string := join nl l.

(** Python indexing [l[i]] with an [int]: negative indices count from the
    end; [None] stands for [IndexError]. *)
Definition py_index {A} (l : list A) (i : Z) : option A :=
  if (0 <=? i)%Z then l !! Z.to_nat i
  else if (- Z.of_nat (List.length l) <=? i)%Z then l !! Z.to_nat (Z.of_nat (List.length l) + i)
  else None.

End PyStr.
Import PyStr.

(** ** Regular expressions

    The fragment of Python's [re] the script uses, with the backtracking
    order of the [re] module: alternatives left to right, greedy quantifiers
    longest first, lazy ones shortest first.  Every quantified atom of the
    script's patterns is a single character class, so repetition is recursion
    on the subject. *)

Module Re.

Inductive regex : Type :=
| Lit (t : string)                 (* literal text *)
| Cls (p : ascii → bool)           (* one character of a class *)
| Seq (r1 r2 : regex)
| Alt (r1 r2 : regex)              (* r1|r2 *)
| Opt (r : regex)                  (* r? *)
| Star (p : ascii → bool)          (* [p]* *)
| Plus (p : ascii → bool)          (* [p]+ *)
| PlusLazy (p : ascii → bool)      (* [p]+? *)
| Rep (n : nat) (p : ascii → bool) (* [p]{n} *)
| Grp (i : nat) (r : regex)        (* capturing group number i *)
| Ahead (r : regex)                (* (?=r) *)
| Bos                              (* ^ *)
| Eos.                             (* $ *)

Definition caps := nat → option string.
Definition no_caps : caps := λ _, None.
Definition set_cap (i : nat) (v : string) (c : caps) : caps :=
  λ j, if Nat.eqb i j then Some v else c j.

(** A match in progress: the position reached, the rest of the subject
    from there, the groups captured so far. *)
Definition res : Type := nat * string * caps.
Definition cont : Type := nat → string → caps → option res.

Definition one (p : ascii → bool) (k : cont) : cont :=
  λ pos s c,
    match s with
    | String a s' => if p a then k (S pos) s' c else None
    | EmptyString => None
    end.

Fixpoint lit (t : string) (k : cont) (pos : nat) (s : string) (c : caps) : option res :=
  match t with
  | EmptyString => k pos s c
  | String a t' =>
      match s with
      | String b s' => if Ascii.eqb a b then lit t' k (S pos) s' c else None
      | EmptyString => None
      end
  end.

Fixpoint star_greedy (p : ascii → bool) (k : cont) (pos : nat) (s : string) (c : caps)
  : option res :=
  match s with
  | String a s' =>
      if p a then
        match star_greedy p k (S pos) s' c with
        | Some r => Some r
        | None => k pos s c
        end
      else k pos s c
  | EmptyString => k pos s c
  end.

Fixpoint star_lazy (p : ascii → bool) (k : cont) (pos : nat) (s : string) (c : caps)
  : option res :=
  match k pos s c with
  | Some r => Some r
  | None =>
      match s with
      | String a s' => if p a then star_lazy p k (S pos) s' c else None
      | EmptyString => None
      end
  end.

Fixpoint rep (n : nat) (p : ascii → bool) (k : cont) : cont :=
  match n with
  | O => k
  | S n' => one p (rep n' p k)
  end.

(** [$] without [re.MULTILINE]: at the end of the subject, or before a
    newline that ends it. *)
Definition at_end (s : string) : bool := String.eqb s "" || String.eqb s nl.

Fixpoint rmatch (r : regex) (k : cont) : cont :=
  match r with
  | Lit t => lit t k
  | Cls p => one p k
  | Seq r1 r2 => rmatch r1 (rmatch r2 k)
  | Alt r1 r2 =>
      λ pos s c,
        match rmatch r1 k pos s c with
        | Some x => Some x
        | None => rmatch r2 k pos s c
        end
  | Opt r1 =>
      λ pos s c,
        match rmatch r1 k pos s c with
        | Some x => Some x
        | None => k pos s c
        end
  | Star p => star_greedy p k
  | Plus p => one p (star_greedy p k)
  | PlusLazy p => one p (star_lazy p k)
  | Rep n p => rep n p k
  | Grp i r1 =>
      λ pos s c,
        rmatch r1 (λ pos' s' c', k pos' s' (set_cap i (String.substring 0 (pos' - pos) s) c'))
               pos s c
  | Ahead r1 =>
      λ pos s c,
        match rmatch r1 (λ pos' s' c', Some (pos', s', c')) pos s c with
        | Some (_, _, c') => k pos s c'
        | None => None
        end
  | Bos => λ pos s c, if Nat.eqb pos 0 then k pos s c else None
  | Eos => λ pos s c, if at_end s then k pos s c else None
  end.

Definition finish : cont := λ pos s c, Some (pos, s, c).

(** A match object: [group i] is [None] for a group that took no part. *)
Definition group (m : res) (i : nat) : option string := m.2 i.
Definition match_end (m : res) : nat := m.1.1.

(** [re.match(r, s)] *)
Definition re_match (r : regex) (s : string) : option res := rmatch r finish 0 s no_caps.

(** [re.search(r, s)]: the leftmost position where [r] matches. *)
Fixpoint search_from (r : regex) (pos : nat) (s : string) : option res :=
  match rmatch r finish pos s no_caps with
  | Some m => Some m
  | None =>
      match s with
      | String _ s' => search_from r (S pos) s'
      | EmptyString => None
      end
  end.

Definition re_search (r : regex) (s : string) : option res := search_from r 0 s.

(** [re.findall(r, s)] for a pattern with one group: group 1 of the
    successive non-overlapping matches, left to right.  [skip] counts the
    characters of the last match still to be passed over. *)
Fixpoint findall_go (r : regex) (pos skip : nat) (s : string) : list string :=
  match skip with
  | S k =>
      match s with
      | String _ s' => findall_go r (S pos) k s'
      | EmptyString => []
      end
  | O =>
      match rmatch r finish pos s no_caps with
      | Some m =>
          default "" (group m 1)
            :: match s with
               | String _ s' => findall_go r (S pos) (match_end m - pos - 1) s'
               | EmptyString => []
               end
      | None =>
          match s with
          | String _ s' => findall_go r (S pos) 0 s'
          | EmptyString => []
          end
      end
  end.

Definition re_findall (r : regex) (s : string) : list string := findall_go r 0 0 s.

End Re.
Import Re.

Declare Scope re_scope.
Delimit Scope re_scope with re.
Infix ">>" := Seq (at level 60, right associativity) : re_scope.
Infix ":|:" := Alt (at level 65, right associativity) : re_scope.

(** ** The script's patterns *)

Module Pat.
Local Open Scope re_scope.

(** [\s], [.] and [.] under [re.DOTALL] *)
Definition ws : ascii → bool := is_space.
Definition dot : ascii → bool := λ c, negb (Ascii.eqb c nl_char).
Definition dot_all : ascii → bool := λ _, true.

(** [[a-zA-Z\s\.\']] *)
Definition city_char (c : ascii) : bool :=
  is_lower_az c || is_upper_AZ c || is_space c || Ascii.eqb c "." || Ascii.eqb c "'".

(** [^([A-Z][a-zA-Z\s\.\']+),\s+([A-Z]{2})(?:\s+\(([A-Z])\))?$] *)
Definition heading : regex :=
  Bos >> Grp 1 (Cls is_upper_AZ >> Plus city_char) >> Lit "," >> Plus ws
      >> Grp 2 (Rep 2 is_upper_AZ)
      >> Opt (Plus ws >> Lit "(" >> Grp 3 (Cls is_upper_AZ) >> Lit ")") >> Eos.

(** [Campground:\s*(.+?)\.?\s*\n] *)
Definition campground : regex :=
  Lit "Campground:" >> Star ws >> Grp 1 (PlusLazy dot) >> Opt (Lit ".") >> Star ws >> Lit nl.

(** [Trail:\s*(.+?)\.?\s*(?:\n|$)] *)
Definition trail : regex :=
  Lit "Trail:" >> Star ws >> Grp 1 (PlusLazy dot) >> Opt (Lit ".") >> Star ws
               >> (Lit nl :|: Eos).

Definition NL (label : string) : regex := Lit (nl +:+ label).

(** [CG Notes:\s*(.+?)(?=\nTrail:|\nTrail Notes:|\nDirections:|\nOther:|\nRelated|\nContributor:|\nRVingwithBikes|$)]
    with [re.DOTALL] *)
Definition cg_notes : regex :=
  Lit "CG Notes:" >> Star ws >> Grp 1 (PlusLazy dot_all)
    >> Ahead (NL "Trail:" :|: NL "Trail Notes:" :|: NL "Directions:" :|: NL "Other:"
              :|: NL "Related" :|: NL "Contributor:" :|: NL "RVingwithBikes" :|: Eos).

(** [Trail Notes:\s*(.+?)(?=\nDirections:|\nOther:|\nRelated|\nContributor:|\nRVingwithBikes|$)]
    with [re.DOTALL] *)
Definition trail_notes : regex :=
  Lit "Trail Notes:" >> Star ws >> Grp 1 (PlusLazy dot_all)
    >> Ahead (NL "Directions:" :|: NL "Other:" :|: NL "Related" :|: NL "Contributor:"
              :|: NL "RVingwithBikes" :|: Eos).

(** [Directions:\s*(.+?)(?=\nOther:|\nRelated|\nContributor:|\nRVingwithBikes|$)]
    with [re.DOTALL] *)
Definition directions : regex :=
  Lit "Directions:" >> Star ws >> Grp 1 (PlusLazy dot_all)
    >> Ahead (NL "Other:" :|: NL "Related" :|: NL "Contributor:" :|: NL "RVingwithBikes" :|: Eos).

(** [Other:\s*(.+?)(?=\nRelated|\nContributor:|\nRVingwithBikes|$)] with [re.DOTALL] *)
Definition other : regex :=
  Lit "Other:" >> Star ws >> Grp 1 (PlusLazy dot_all)
    >> Ahead (NL "Related" :|: NL "Contributor:" :|: NL "RVingwithBikes" :|: Eos).

(** [Related Blog Post:\s*(.+?)(?=\nContributor:|\nRVingwithBikes|$)] with [re.DOTALL] *)
Definition blog_post : regex :=
  Lit "Related Blog Post:" >> Star ws >> Grp 1 (PlusLazy dot_all)
    >> Ahead (NL "Contributor:" :|: NL "RVingwithBikes" :|: Eos).

(** [Contributor:\s*(.+?)(?=\n|$)] *)
Definition contributor : regex :=
  Lit "Contributor:" >> Star ws >> Grp 1 (PlusLazy dot) >> Ahead (Lit nl :|: Eos).

(** [Contributor's Blog:\s*(.+?)(?=\n|$)] *)
Definition contributor_blog : regex :=
  Lit "Contributor's Blog:" >> Star ws >> Grp 1 (PlusLazy dot) >> Ahead (Lit nl :|: Eos).

End Pat.

(** ** Data model *)

(** A positioned word of [page.extract_words()]: its text and the vertical
    offset of its top edge. *)
Record word := { w_text : string; w_top : Qc }.

(** A link annotation in top-down coordinates, as [extract_links_from_page]
    returns it. *)
Record link := { uri : string; x0 : Qc; x1 : Qc; y_top : Qc; y_bottom : Qc }.

(** What the PDF library yields for one page. *)
Record page := { page_text : string; page_words : list word; page_links : list link }.

(** An entry block of [find_entries_on_page]. *)
Record entry_block :=
  { start_line : option nat; text : string; city : option string; state : option string }.

(** JSON-like values: the scalars, and the two nested shapes the script
    builds ([{'name': .., 'link': ..}] and a list of those). *)
Inductive atom := ANone | AStr (s : string) | ANum (q : Qc).
Inductive value :=
| VAtom (a : atom)
| VDict (d : gmap string atom)
| VList (l : list (gmap string atom)).

Global Instance atom_eq_dec : EqDecision atom.
Proof. solve_decision. Defined.
Global Instance value_eq_dec : EqDecision value.
Proof. solve_decision. Defined.

Abbreviation dict := (gmap string value).
Abbreviation VNone := (VAtom ANone).
Abbreviation VStr s := (VAtom (AStr s)).

Definition opt_atom (o : option string) : atom :=
  match o with Some s => AStr s | None => ANone end.

(** [d.get(k)] *)
Definition dict_get (d : dict) (k : string) : value := default VNone (d !! k).

(** Truth value of a string: non-empty. *)
Definition truthy (s : string) : bool := negb (String.eqb s "").

Record database := { entries : list dict; metadata : string * string }.

(** ** Exceptions, output and the store file *)

Inductive exn := KeyError (k : string) | AttributeError | IndexError | ValueError.

Inductive Err (A : Type) : Type := Ok (a : A) | Raised (e : exn).
Arguments Ok {A} a.
Arguments Raised {A} e.

Global Instance Err_ret : MRet Err := λ A a, Ok a.
Global Instance Err_bind : MBind Err :=
  λ A B f m, match m with Ok a => f a | Raised e => Raised e end.

(** What the script prints, one constructor per [print]. *)
Inductive message :=
| MsgIndexOutOfRange (entry_index : Z) (n : nat)
| MsgEntriesOnPage
| MsgListed (i : nat) (city_state cg_name : string)
| MsgUseEntry
| MsgExtracting (entry_index : Z) (part : nat) (hookup_type : string)
| MsgLookingUp
| MsgDisplay (entry : dict) (coordinates : option dict)
| MsgUpdating
| MsgSaved (total : nat)
| MsgToSave.

(** The world a run acts on: the store file ([None] when it does not
    exist) and the lines printed so far. *)
Record world := { store_file : option database; printed : list message }.

Definition M (A : Type) : Type := world → Err A * world.

Global Instance M_ret : MRet M := λ A a w, (Ok a, w).
Global Instance M_bind : MBind M :=
  λ A B f m w, match m w with (Ok a, w') => f a w' | (Raised e, w') => (Raised e, w') end.

Definition print (msg : message) : M unit :=
  λ w, (Ok tt, {| store_file := store_file w; printed := printed w ++ [msg] |}).
Definition lift {A} (e : Err A) : M A := λ w, (e, w).
Definition read_store : M (option database) := λ w, (Ok (store_file w), w).
Definition write_store (db : database) : M unit :=
  λ w, (Ok tt, {| store_file := Some db; printed := printed w |}).

(** ** Link lookup *)

Definition five : Qc := Qc_of_Z 5.

(** [link['y_top'] - 5 <= text_y <= link['y_bottom'] + 5] *)
Definition in_band (l : link) (text_y : Qc) : bool :=
  bool_decide (y_top l - five ≤ text_y ∧ text_y ≤ y_bottom l + five)%Qc.

Fixpoint find_link_for_position (links : list link) (text_y : Qc) : option string :=
  match links with
  | l :: links' => if in_band l text_y then Some (uri l) else find_link_for_position links' text_y
  | [] => None
  end.

(** ** Entry segmentation *)

Definition is_heading_line (line : string) : bool :=
  match re_match Pat.heading (strip line) with Some _ => true | None => false end.

(** ['RVingwithBikes.Com' in line or line.strip().startswith('Page ')] *)
Definition is_footer_line (line : string) : bool :=
  contains "RVingwithBikes.Com" line || startswith (strip line) "Page ".

Definition mk_block (start : option nat) (ls : list string) : entry_block :=
  {| start_line := start; text := unlines ls; city := None; state := None |}.

(** [entries.append({...})] under [if current_entry_lines:] *)
Definition flush (es : list entry_block) (cur : list string) (start : option nat)
  : list entry_block :=
  match cur with
  | [] => es
  | _ :: _ => es ++ [mk_block start cur]
  end.

(** The loop [for i, line in enumerate(lines)], on the lines from index [i]
    on, with the three loop variables. *)
Fixpoint seg_loop (i : nat) (ls : list string)
    (es : list entry_block) (cur : list string) (start : option nat)
  : list entry_block * list string * option nat :=
  match ls with
  | [] => (es, cur, start)
  | line :: ls' =>
      if is_heading_line line then seg_loop (S i) ls' (flush es cur start) [line] (Some i)
      else
        match start with
        | Some _ =>
            if is_footer_line line then seg_loop (S i) ls' es cur start
            else seg_loop (S i) ls' es (cur ++ [line]) start
        | None => seg_loop (S i) ls' es cur start
        end
  end.

Definition find_entries_on_page (page_text : string) : list entry_block :=
  let '(es, cur, start) := seg_loop 0 (lines page_text) [] [] None in
  flush es cur start.

(** ** Field parsing and link attribution *)

(** [[w for w in words if w['text'] == label]] *)
Definition label_words (label : string) (words : list word) : list word :=
  filter (λ w, w_text w = label) words.

(** [{'name': name, 'link': lnk}] *)
Definition named (name : string) (lnk : option string) : gmap string atom :=
  <["link" := opt_atom lnk]> (<["name" := AStr name]> ∅).

(** [d.get(k1, {}).get(k2)] *)
Definition get2 (d : dict) (k1 k2 : string) : Err atom :=
  match d !! k1 with
  | None => Ok ANone
  | Some (VDict n) => Ok (default ANone (n !! k2))
  | Some _ => Raised AttributeError
  end.

(** [l[i]] *)
Definition getitem {A} (l : list A) (i : Z) : Err A :=
  match py_index l i with Some a => Ok a | None => Raised IndexError end.

(** Group 1 of a match, stripped: [m.group(1).strip()] *)
Definition group1 (m : res) : string := strip (default "" (group m 1)).

(** City, state and hook-up code, from the first line that is a heading. *)
Fixpoint parse_heading (ls : list string) (entry : dict) : dict :=
  match ls with
  | [] => entry
  | line :: ls' =>
      match re_match Pat.heading (strip line) with
      | Some m =>
          <["hookup_code" :=
              VAtom (match group m 3 with
                     | Some g => if truthy g then AStr g else ANone
                     | None => ANone
                     end)]>
            (<["state" := VStr (default "" (group m 2))]>
               (<["city" := VStr (group1 m)]> entry))
      | None => parse_heading ls' entry
      end
  end.

Definition trail_keywords : list string :=
  ["/trail/"; "/trails"; "traillink.com"; "recreationtrails";
   "loop"; "greenway"; "bikeway"; "pathway"; "/bicycling"].

(** [any(kw in potential_link.lower() for kw in trail_keywords)] *)
Definition is_trail_link (potential_link : string) : bool :=
  existsb (λ kw, contains kw (lower potential_link)) trail_keywords.

(** The name of the campground field, when the entry has one. *)
Definition campground_name (text : string) : option string :=
  match re_search Pat.campground text with
  | Some m => Some (rstrip_dot (group1 m))
  | None => None
  end.

(** The word the campground link is looked up at: [cg_words[entry_index]]
    under [if entry_index < len(cg_words)]. *)
Definition campground_anchor (words : list word) (entry_index : Z) : Err (option word) :=
  let cg_words := label_words "Campground:" words in
  if (entry_index <? Z.of_nat (List.length cg_words))%Z
  then w ← getitem cg_words entry_index; mret (Some w)
  else mret None.

(** The link kept for the campground: the one found at the anchor, unless
    it is empty or looks like a trail link. *)
Definition validate_campground_link (potential_link : option string) : option string :=
  match potential_link with
  | Some u => if truthy u && negb (is_trail_link u) then Some u else None
  | None => None
  end.

Definition campground_link (links : list link) (words : list word) (entry_index : Z)
  : Err (option string) :=
  a ← campground_anchor words entry_index;
  mret (match a with
        | Some w => validate_campground_link (find_link_for_position links (w_top w))
        | None => None
        end).

Definition parse_campground (links : list link) (words : list word) (entry_index : Z)
    (text : string) (entry : dict) : Err dict :=
  match campground_name text with
  | Some cg_name =>
      cg_link ← campground_link links words entry_index;
      mret (<["campground" := VDict (named cg_name cg_link)]> entry)
  | None => mret entry
  end.

Definition parse_cg_notes (text : string) (entry : dict) : dict :=
  match re_search Pat.cg_notes text with
  | Some m => <["cg_notes" := VStr (rstrip_dot (group1 m))]> entry
  | None => entry
  end.

(** [text.split('Trail Notes:')[0] if 'Trail Notes:' in text else text] *)
Definition trail_section (text : string) : string :=
  if contains "Trail Notes:" text then default "" (head (split "Trail Notes:" text)) else text.

(** [re.findall(r'Trail:\s*(.+?)\.?\s*(?:\n|$)', trail_section)] *)
Definition trail_matches (text : string) : list string :=
  re_findall Pat.trail (trail_section text).

(** The loop [for ei in range(entry_index)] that counts the trails of the
    entries before this one. *)
Definition trail_word_offset (page_entries : list entry_block) (entry_index : Z) : nat :=
  fold_left
    (λ acc ei,
       let prev_entry_text :=
         match page_entries !! ei with Some b => text b | None => "" end in
       acc + List.length (trail_matches prev_entry_text))
    (seq 0 (Z.to_nat entry_index)) 0.

(** The word the link of the [i]-th trail of the entry is looked up at. *)
Definition trail_anchor (words : list word) (page_entries : list entry_block)
    (entry_index : Z) (i : nat) : option word :=
  label_words "Trail:" words !! (trail_word_offset page_entries entry_index + i).

Definition trail_link (links : list link) (words : list word)
    (page_entries : list entry_block) (entry_index : Z) (i : nat) : option string :=
  match trail_anchor words page_entries entry_index i with
  | Some w => find_link_for_position links (w_top w)
  | None => None
  end.

(** The list [trails] built by the loop over [enumerate(trail_matches)]. *)
Definition build_trails (links : list link) (words : list word)
    (page_entries : list entry_block) (entry_index : Z) (text : string)
  : list (gmap string atom) :=
  imap (λ i trail_name,
          named (rstrip_dot (strip trail_name))
                (trail_link links words page_entries entry_index i))
       (trail_matches text).

Definition parse_trails (links : list link) (words : list word)
    (page_entries : list entry_block) (entry_index : Z) (text : string) (entry : dict) : dict :=
  match build_trails links words page_entries entry_index text with
  | [] => entry
  | [t] => <["trail" := VDict t]> entry
  | (t :: _ :: _) as trails => <["trail" := VDict t]> (<["trails" := VList trails]> entry)
  end.

(** A field that is the stripped group 1 of a search. *)
Definition parse_plain (r : regex) (key : string) (text : string) (entry : dict) : dict :=
  match re_search r text with
  | Some m => <[key := VStr (group1 m)]> entry
  | None => entry
  end.

(** The number of earlier entries that hold a related blog post. *)
Definition related_word_offset (page_entries : list entry_block) (entry_index : Z) : nat :=
  fold_left
    (λ acc ei,
       let prev_entry_text :=
         match page_entries !! ei with Some b => text b | None => "" end in
       if contains "Related Blog Post:" prev_entry_text then acc + 1 else acc)
    (seq 0 (Z.to_nat entry_index)) 0.

(** [min(blog_links, key=lambda l: abs(float(l['y_top']) - blog_y))]: the
    first link at the least distance. *)
Definition closest_link (blog_y : Qc) (l0 : link) (rest : list link) : link :=
  fold_left
    (λ best l,
       if bool_decide (Qcabs (y_top l - blog_y) < Qcabs (y_top best - blog_y))%Qc
       then l else best)
    rest l0.

Definition parse_blog_post (links : list link) (words : list word)
    (page_entries : list entry_block) (entry_index : Z) (text : string) (entry : dict) : dict :=
  match re_search Pat.blog_post text with
  | Some m =>
      let entry := <["blog_post" := VStr (group1 m)]> entry in
      let related_words := label_words "Related" words in
      match related_words !! related_word_offset page_entries entry_index with
      | Some w =>
          match filter (λ l, contains "chambersontheroad" (uri l) = true) links with
          | l0 :: rest =>
              <["blog_post_link" := VStr (uri (closest_link (w_top w) l0 rest))]> entry
          | [] => entry
          end
      | None => entry
      end
  | None => entry
  end.

(** The loop [for link in links: if ...: ...; break]. *)
Fixpoint first_unused_link (used_links : list value) (links : list link) : option string :=
  match links with
  | l :: links' =>
      if bool_decide (VStr (uri l) ∉ used_links) && negb (contains "chambersontheroad" (uri l))
      then Some (uri l) else first_unused_link used_links links'
  | [] => None
  end.

Definition parse_contributor_blog (links : list link) (text : string) (entry : dict)
  : Err dict :=
  match re_search Pat.contributor_blog text with
  | Some m =>
      let entry := <["contributor_blog" := VStr (group1 m)]> entry in
      cg ← get2 entry "campground" "link";
      tr ← get2 entry "trail" "link";
      let used_links := [VAtom cg; VAtom tr; dict_get entry "blog_post_link"] in
      mret (match first_unused_link used_links links with
            | Some u => <["contributor_blog_link" := VStr u]> entry
            | None => entry
            end)
  | None => mret entry
  end.

(** The body of [extract_entry_from_page] from [entry = {}] on. *)
Definition parse_entry (links : list link) (words : list word)
    (page_entries : list entry_block) (entry_index : Z) (text : string) : Err dict :=
  let entry := parse_heading (lines text) ∅ in
  entry ← parse_campground links words entry_index text entry;
  let entry := parse_cg_notes text entry in
  let entry := parse_trails links words page_entries entry_index text entry in
  let entry := parse_plain Pat.trail_notes "trail_notes" text entry in
  let entry := parse_plain Pat.directions "directions" text entry in
  let entry := parse_plain Pat.other "other" text entry in
  let entry := parse_blog_post links words page_entries entry_index text entry in
  let entry := parse_plain Pat.contributor "contributor" text entry in
  parse_contributor_blog links text entry.

Definition extract_entry_from_page (pg : page) (entry_index : Z)
  : M (dict * string * list link) :=
  let full_text := page_text pg in
  let words := page_words pg in
  let links := page_links pg in
  let page_entries := find_entries_on_page full_text in
  match page_entries with
  | [] => mret (∅, full_text, links)
  | _ :: _ =>
      if (Z.of_nat (List.length page_entries) <=? entry_index)%Z then
        _ ← print (MsgIndexOutOfRange entry_index (List.length page_entries));
        mret (∅, full_text, links)
      else
        b ← lift (getitem page_entries entry_index);
        entry ← lift (parse_entry links words page_entries entry_index (text b));
        mret (entry, text b, links)
  end.

(** ** Geocoding *)

(** One place of the response: [id], [displayName.text],
    [formattedAddress], [location.latitude] and [location.longitude], each
    possibly missing. *)
Record place :=
  { place_id : option string;
    display_text : option string;
    formatted_address : option string;
    latitude : option Qc;
    longitude : option Qc }.

(** What [requests.post] followed by [raise_for_status] and [json] gives: a
    [RequestException] with its description, or the value of the [places]
    key of the body ([None] when the key is missing). *)
Inductive http_outcome :=
| RequestException (description : string)
| Body (places : option (list place)).

(** What a run reads and cannot change: the two environment variables, the
    places service, and the page the PDF library yields for [--page]. *)
Record env :=
  { GOOGLE_MAPS_API_KEY : option string;
    GOOGLE_PLACES_API_KEY_var : option string;
    post : string → http_outcome;
    pdf_page : page }.

(** [os.environ.get('GOOGLE_MAPS_API_KEY') or os.environ.get('GOOGLE_PLACES_API_KEY')] *)
Definition GOOGLE_PLACES_API_KEY (e : env) : option string :=
  match GOOGLE_MAPS_API_KEY e with
  | Some k => if truthy k then Some k else GOOGLE_PLACES_API_KEY_var e
  | None => GOOGLE_PLACES_API_KEY_var e
  end.

Definition opt_num (o : option Qc) : atom :=
  match o with Some q => ANum q | None => ANone end.

Definition error_result (reason : string) : dict := <["error" := VStr reason]> ∅.

Definition place_result (p : place) : dict :=
  list_to_map
    [("placeId", VAtom (opt_atom (place_id p)));
     ("displayName", VAtom (opt_atom (display_text p)));
     ("formattedAddress", VAtom (opt_atom (formatted_address p)));
     ("latitude", VAtom (opt_num (latitude p)));
     ("longitude", VAtom (opt_num (longitude p)))].

Definition get_coordinates_from_google (e : env) (campground_name city state : string) : dict :=
  match GOOGLE_PLACES_API_KEY e with
  | None => error_result "No API key found"
  | Some key =>
      if negb (truthy key) then error_result "No API key found"
      else
        let search_query := campground_name +:+ ", " +:+ city +:+ ", " +:+ state in
        match post e search_query with
        | RequestException description => error_result description
        | Body (Some (p :: _)) => place_result p
        | Body _ => error_result "No places found"
        end
  end.

(** ** The store *)

Definition load_database : M database :=
  f ← read_store;
  mret (match f with
        | Some db => db
        | None => {| entries := []; metadata := ("2.0", "eBook PDF extraction") |}
        end).

(** [coordinates.get(k) if coordinates and k in coordinates else None] *)
Definition coordinate_field (coordinates : option dict) (k : string) : value :=
  match coordinates with
  | Some c => if bool_decide (c ≠ ∅) then default VNone (c !! k) else VNone
  | None => VNone
  end.

(** The dictionary literal [final_entry = {...}]. *)
Definition build_final_entry (entry : dict) (coordinates : option dict) : dict :=
  list_to_map
    [("city", dict_get entry "city");
     ("state", dict_get entry "state");
     ("hookup_type", default (VStr "full") (entry !! "hookup_type"));
     ("campground", dict_get entry "campground");
     ("cg_notes", dict_get entry "cg_notes");
     ("trail", dict_get entry "trail");
     ("trails", dict_get entry "trails");
     ("trail_notes", dict_get entry "trail_notes");
     ("directions", dict_get entry "directions");
     ("other", dict_get entry "other");
     ("blog_post", dict_get entry "blog_post");
     ("blog_post_link", dict_get entry "blog_post_link");
     ("contributor", dict_get entry "contributor");
     ("contributor_blog", dict_get entry "contributor_blog");
     ("contributor_blog_link", dict_get entry "contributor_blog_link");
     ("latitude", coordinate_field coordinates "latitude");
     ("longitude", coordinate_field coordinates "longitude");
     ("placeId", coordinate_field coordinates "placeId")].

(** [{k: v for k, v in final_entry.items() if v is not None}] *)
Definition remove_none (d : dict) : dict := filter (λ kv, kv.2 ≠ VNone) d.

Definition final_entry_of (entry : dict) (coordinates : option dict) : dict :=
  remove_none (build_final_entry entry coordinates).

(** [d[k]] *)
Definition subscript (d : dict) (k : string) : Err value :=
  match d !! k with Some v => Ok v | None => Raised (KeyError k) end.

(** The condition of the duplicate check, with the short-circuit of [and]. *)
Definition is_duplicate (final_entry e : dict) : Err bool :=
  c ← subscript final_entry "city";
  if bool_decide (dict_get e "city" = c) then
    s ← subscript final_entry "state";
    if bool_decide (dict_get e "state" = s) then
      n ← get2 e "campground" "name";
      n' ← get2 final_entry "campground" "name";
      mret (bool_decide (n = n'))
    else mret false
  else mret false.

(** [next((e for e in db['entries'] if ...), None)] *)
Fixpoint find_existing (es : list dict) (final_entry : dict) : Err (option dict) :=
  match es with
  | [] => mret None
  | e :: es' =>
      is_duplicate final_entry e ≫= λ b : bool,
        if b then mret (Some e) else find_existing es' final_entry
  end.

(** [l.index(x)] *)
Definition index_of (l : list dict) (x : dict) : Err nat :=
  match list_find (λ e, e = x) l with
  | Some (i, _) => Ok i
  | None => Raised ValueError
  end.

Definition with_entries (db : database) (es : list dict) : database :=
  {| entries := es; metadata := metadata db |}.

Definition save_entry_to_database (entry : dict) (coordinates : option dict) : M unit :=
  db ← load_database;
  let final_entry := final_entry_of entry coordinates in
  existing ← lift (find_existing (entries db) final_entry);
  db ← match existing with
       | Some e =>
           if bool_decide (e ≠ ∅) then
             _ ← print MsgUpdating;
             idx ← lift (index_of (entries db) e);
             mret (with_entries db (<[idx := final_entry]> (entries db)))
           else mret (with_entries db (entries db ++ [final_entry]))
       | None => mret (with_entries db (entries db ++ [final_entry]))
       end;
  _ ← write_store db;
  print (MsgSaved (List.length (entries db))).

(** ** The command line *)

Record args :=
  { arg_entry : Z; arg_part : nat; arg_list : bool; arg_save : bool; arg_no_coords : bool }.

(** Truth value of a scalar: [None], the empty string and zero are false. *)
Definition atom_truthy (a : atom) : bool :=
  match a with
  | ANone => false
  | AStr s => truthy s
  | ANum q => bool_decide (q ≠ Qc_of_Z 0)
  end.

(** A value inside an f-string; the fields formatted here are strings or
    absent. *)
Definition format (a : atom) : string :=
  match a with AStr s => s | ANone => "None" | ANum _ => "" end.

(** [d.get(k, '')] for a field that holds a scalar. *)
Definition get_or_empty (d : dict) (k : string) : atom :=
  match d !! k with Some (VAtom a) => a | Some _ => AStr "" | None => AStr "" end.

(** The loop of the list mode: one line per entry of the page. *)
Fixpoint print_entries (i : nat) (bs : list entry_block) : M unit :=
  match bs with
  | [] => mret tt
  | b :: bs' =>
      let city_state := default "Unknown" (head (lines (text b))) in
      let cg_name :=
        match re_search Pat.campground (text b) with
        | Some m => group1 m
        | None => "Unknown"
        end in
      _ ← print (MsgListed i city_state cg_name);
      print_entries (S i) bs'
  end.

Definition list_entries (e : env) : M unit :=
  _ ← print MsgEntriesOnPage;
  _ ← print_entries 0 (find_entries_on_page (page_text (pdf_page e)));
  print MsgUseEntry.

Definition lookup_coordinates (e : env) (a : args) (entry : dict) : M (option dict) :=
  if arg_no_coords a then mret None
  else
    name ← lift (get2 entry "campground" "name");
    if atom_truthy name then
      _ ← print MsgLookingUp;
      mret (Some (get_coordinates_from_google e (format name)
                    (format (get_or_empty entry "city"))
                    (format (get_or_empty entry "state"))))
    else mret None.

Definition main (e : env) (a : args) : M unit :=
  let hookup_type := if Nat.eqb (arg_part a) 1 then "full" else "partial" in
  if arg_list a then list_entries e
  else
    _ ← print (MsgExtracting (arg_entry a) (arg_part a) hookup_type);
    r ← extract_entry_from_page (pdf_page e) (arg_entry a);
    let entry := <["hookup_type" := VStr hookup_type]> (r.1.1) in
    coordinates ← lookup_coordinates e a entry;
    _ ← print (MsgDisplay entry coordinates);
    if arg_save a then save_entry_to_database entry coordinates
    else print MsgToSave.

(** ** Notions the statements below use *)

(** A string without a newline character. *)
Definition NoNl (s : string) : Prop := contains nl s = false.

(** The indices of the heading lines among [ls], the first of which has
    index [i]. *)
Fixpoint heading_indices_from (i : nat) (ls : list string) : list nat :=
  match ls with
  | [] => []
  | l :: ls' =>
      if is_heading_line l then i :: heading_indices_from (S i) ls'
      else heading_indices_from (S i) ls'
  end.

Definition heading_indices (page_text : string) : list nat :=
  heading_indices_from 0 (lines page_text).

(** The lines of a block: a heading line of the page at index [j], then
    lines that are neither footers nor headings. *)
Definition block_lines (all : list string) (j : nat) (cur : list string) : Prop :=
  ∃ h rest,
    cur = h :: rest ∧ all !! j = Some h ∧ is_heading_line h = true
    ∧ Forall (λ l, is_footer_line l = false ∧ is_heading_line l = false) rest.

Definition good_block (all : list string) (b : entry_block) : Prop :=
  ∃ j, start_line b = Some j ∧ city b = None ∧ state b = None
       ∧ block_lines all j (lines (text b)).



(** The link found at an anchor word, if there is an anchor. *)
Definition link_at (links : list link) (anchor : option word) : option string :=
  match anchor with
  | Some w => find_link_for_position links (w_top w)
  | None => None
  end.

(** The number of trail fields of the [n] first entries of a page. *)
Definition trail_fields_before (page_entries : list entry_block) (n : nat) : nat :=
  sum_list_with (λ b, List.length (trail_matches (text b))) (take n page_entries).


(** The first link whose band holds [text_y]. *)
Definition first_in_band (links : list link) (text_y : Qc) : option string :=
  (uri ∘ snd) <$> list_find (λ l, in_band l text_y = true) links.


(** ** Sample data *)

Definition sample_text : string :=
  unlines ["Part 1 - Full Hookups";
           "Asheville, NC";
           "Campground: Lake Lure..";
           "CG Notes: Nice. Quiet...";
           "Trail: A Trail.";
           "Trail: B";
           "Trail Notes: see Trail: C";
           "RVingwithBikes.Com 2025";
           "Page 17";
           "Boone, NC (P)";
           "Campground: Flintlock";
           "Trail: Z";
           "Contributor's Blog: http://x"].

Definition at_y (label : string) (y : Z) : word := {| w_text := label; w_top := Qc_of_Z y |}.

Definition span (u : string) (top bottom : Z) : link :=
  {| uri := u; x0 := Qc_of_Z 72; x1 := Qc_of_Z 300;
     y_top := Qc_of_Z top; y_bottom := Qc_of_Z bottom |}.

Definition sample_page : page :=
  {| page_text := sample_text;
     page_words := [at_y "Campground:" 100; at_y "Trail:" 120; at_y "Trail:" 140;
                    at_y "Campground:" 300; at_y "Trail:" 320];
     page_links := [span "http://lakelure.example" 98 110;
                    span "http://traillink.com/z" 318 330] |}.

Definition fresh_world : world := {| store_file := None; printed := [] |}.


(** The link an anchor word selects: the first link whose band holds the
    anchor's top, none without an anchor. *)
Definition first_in_band_at (links : list link) (anchor : option word) : option string :=
  match anchor with
  | Some w => first_in_band links (w_top w)
  | None => None
  end.

(** The first entry of the sample page, as extracted. *)
Definition sample_raw_text : string :=
  unlines ["Asheville, NC"; "Campground: Lake Lure.."; "CG Notes: Nice. Quiet...";
           "Trail: A Trail."; "Trail: B"; "Trail Notes: see Trail: C"].

Definition sample_entry : dict :=
  list_to_map
    [("city", VStr "Asheville"); ("state", VStr "NC"); ("hookup_code", VNone);
     ("campground", VDict (named "Lake Lure" (Some "http://lakelure.example")));
     ("cg_notes", VStr "Nice. Quiet");
     ("trail", VDict (named "A Trail" None));
     ("trails", VList [named "A Trail" None; named "B" None]);
     ("trail_notes", VStr "see Trail: C")].

(** Whether a string ends with a period. *)
Fixpoint ends_with_dot (s : string) : bool :=
  match s with
  | EmptyString => false
  | String c EmptyString => is_dot c
  | String _ s' => ends_with_dot s'
  end.

(** [k] periods. *)
Fixpoint dots (k : nat) : string :=
  match k with
  | O => EmptyString
  | S k' => String "." (dots k')
  end.

(** [value] is [captured] without any of its trailing periods. *)
Definition all_dots_stripped (value captured : string) : Prop :=
  ends_with_dot value = false ∧ ∃ k, captured = value +:+ dots k.

(** What the specification says of a trailing period: exactly one is
    removed when there is one. *)
Fixpoint strip_one_dot (s : string) : string :=
  match s with
  | EmptyString => EmptyString
  | String c EmptyString => if is_dot c then EmptyString else s
  | String c s' => String c (strip_one_dot s')
  end.

(** The specified name of the campground of an entry whose campground line
    reads [source]. *)
Definition campground_name_as_specified (source : string) : Prop :=
  campground_name ("Campground: " +:+ source +:+ nl) = Some (strip_one_dot source).

(** ** Notions the statements about the store use *)

Global Instance exn_eq_dec : EqDecision exn.
Proof. solve_decision. Defined.
Global Instance Err_eq_dec {A} `{EqDecision A} : EqDecision (Err A).
Proof. solve_decision. Defined.

(** The database a run loads. *)
Definition loaded (w : world) : database :=
  default {| entries := []; metadata := ("2.0", "eBook PDF extraction") |} (store_file w).

(** The identity of a stored record [e] is that of the new record: city,
    state and campground name are equal (a missing one equals a missing
    one). *)
Definition same_key (final_entry e : dict) : Prop :=
  dict_get e "city" = dict_get final_entry "city"
  ∧ dict_get e "state" = dict_get final_entry "state"
  ∧ get2 e "campground" "name" = get2 final_entry "campground" "name".

Global Instance same_key_dec final_entry e : Decision (same_key final_entry e).
Proof. unfold same_key. apply _. Defined.

(** Replace the first record with the identity of the new one, in place;
    append the new one when there is none. *)
Definition merge_entry (final_entry : dict) (es : list dict) : list dict :=
  match list_find (same_key final_entry) es with
  | Some (i, _) => <[i := final_entry]> es
  | None => es ++ [final_entry]
  end.

(** A value, and a record, without [None] at any level. *)
Definition null_free_value (v : value) : Prop :=
  match v with
  | VAtom a => a ≠ ANone
  | VDict d => ∀ k, d !! k ≠ Some ANone
  | VList l => Forall (λ d : gmap string atom, ∀ k, d !! k ≠ Some ANone) l
  end.

Definition null_free (d : dict) : Prop := ∀ k v, d !! k = Some v → null_free_value v.

(** The value the coordinate result carries under a key. *)
Definition carried (coordinates : option dict) (k : string) : option value :=
  match coordinates with
  | Some c =>
      match c !! k with
      | Some v => if decide (v = VNone) then None else Some v
      | None => None
      end
  | None => None
  end.

(** What the specification says of saving an entry without a city. *)
Definition save_raises_without_city (entry : dict) (coordinates : option dict) (w : world)
  : Prop :=
  dict_get entry "city" = VNone →
  ∃ w', save_entry_to_database entry coordinates w = (Raised (KeyError "city"), w')
        ∧ store_file w' = store_file w.

(** A store that holds one other record, and the sample entry with other
    notes. *)
Definition other_record : dict :=
  list_to_map
    [("city", VStr "Boone"); ("state", VStr "NC"); ("hookup_type", VStr "full");
     ("campground", VDict (named "Flintlock" None))].

Definition one_record_world : world :=
  {| store_file := Some {| entries := [other_record];
                           metadata := ("2.0", "eBook PDF extraction") |};
     printed := [] |}.

Definition sample_entry_again : dict := <["cg_notes" := VStr "Reserve early"]> sample_entry.

(** A run that asks for the sixth entry of the sample page and for a save. *)
Definition sample_env : env :=
  {| GOOGLE_MAPS_API_KEY := Some "key"; GOOGLE_PLACES_API_KEY_var := None;
     post := λ _, Body (Some []); pdf_page := sample_page |}.

Definition out_of_range_args : args :=
  {| arg_entry := 5; arg_part := 1; arg_list := false; arg_save := true;
     arg_no_coords := false |}.

(** The entry [main] hands to the save after an index out of range. *)
Definition hookup_only (hookup_type : string) : dict := <["hookup_type" := VStr hookup_type]> ∅.

(** ** Link extraction

    The annotation objects of a page as PyPDF2 gives them: the value of
    [/Subtype]; the [/URI] of the action under [/A] ([None] without [/A],
    [Some None] for an action without [/URI]); the numbers of [/Rect]. *)

Record annotation :=
  { annot_subtype : option string;
    annot_action : option (option string);
    annot_rect : option (list Qc) }.

(** The page object: its height, and its annotations when it has the key
    [/Annots]. *)
Record pdf_page_object := { page_height : Qc; page_annots : option (list annotation) }.

(** The body of the loop over the annotations, for one annotation: the link
    it adds, if any.  [rect[3]] is read first. *)
Definition link_of_annotation (height : Qc) (a : annotation) : Err (option link) :=
  if bool_decide (annot_subtype a = Some "/Link") then
    match annot_action a with
    | Some (Some u) =>
        match default [] (annot_rect a) with
        | [] => Ok None
        | (_ :: _) as rect =>
            r3 ← getitem rect 3;
            r1 ← getitem rect 1;
            r0 ← getitem rect 0;
            r2 ← getitem rect 2;
            mret (Some {| uri := u; x0 := r0; x1 := r2;
                          y_top := (height - r3)%Qc; y_bottom := (height - r1)%Qc |})
        end
    | _ => Ok None
    end
  else Ok None.

Fixpoint collect_links (height : Qc) (annots : list annotation) (links : list link)
  : Err (list link) :=
  match annots with
  | [] => Ok links
  | a :: annots' =>
      link_of_annotation height a ≫= λ o : option link,
        collect_links height annots' (match o with Some l => links ++ [l] | None => links end)
  end.

Definition extract_links_from_page (p : pdf_page_object) : Err (list link) :=
  match page_annots p with
  | Some annots => collect_links (page_height p) annots []
  | None => Ok []
  end.

(** A link annotation that has a target and a rectangle. *)
Definition is_link_annotation (a : annotation) : bool :=
  bool_decide (annot_subtype a = Some "/Link")
  && match annot_action a with Some (Some _) => true | _ => false end
  && match default [] (annot_rect a) with [] => false | _ => true end.

(** The link of an annotation whose rectangle has its four numbers. *)
Definition link_of_rect (height : Qc) (a : annotation) : option link :=
  match annot_action a, default [] (annot_rect a) with
  | Some (Some u), r0 :: r1 :: r2 :: r3 :: _ =>
      Some {| uri := u; x0 := r0; x1 := r2;
              y_top := (height - r3)%Qc; y_bottom := (height - r1)%Qc |}
  | _, _ => None
  end.

(** Sample annotations: a link, a note, and a link whose rectangle is cut
    short. *)
Definition sample_annotation : annotation :=
  {| annot_subtype := Some "/Link"; annot_action := Some (Some "http://lakelure.example");
     annot_rect := Some [Qc_of_Z 72; Qc_of_Z 682; Qc_of_Z 300; Qc_of_Z 694] |}.

Definition note_annotation : annotation :=
  {| annot_subtype := Some "/Text"; annot_action := None; annot_rect := None |}.

Definition short_annotation : annotation :=
  {| annot_subtype := Some "/Link"; annot_action := Some (Some "http://x.example");
     annot_rect := Some [Qc_of_Z 72; Qc_of_Z 682] |}.

Definition sample_page_object : pdf_page_object :=
  {| page_height := Qc_of_Z 792;
     page_annots := Some [sample_annotation; note_annotation] |}.

Definition broken_page_object : pdf_page_object :=
  {| page_height := Qc_of_Z 792;
     page_annots := Some [sample_annotation; short_annotation] |}.

(** The lines of a page that end up in a block: from the first heading
    on, every heading and every line that is not a footer. *)
Fixpoint kept_lines (started : bool) (ls : list string) : list string :=
  match ls with
  | [] => []
  | l :: ls' =>
      if is_heading_line l then l :: kept_lines true ls'
      else if started && negb (is_footer_line l) then l :: kept_lines true ls'
      else kept_lines started ls'
  end.


(** A page whose entry has a blog post and a contributor's blog. *)
Definition blog_page : page :=
  {| page_text := unlines ["Damascus, VA"; "Campground: Creeper Trail RV.";
                           "Trail: Virginia Creeper Trail";
                           "Related Blog Post: Riding the Creeper";
                           "Contributor: Pat"; "Contributor's Blog: Wheels and Spokes"];
     page_words := [at_y "Campground:" 100; at_y "Trail:" 120; at_y "Related" 140];
     page_links := [span "http://creeper.example" 98 110;
                    span "http://chambersontheroad.com/far" 300 310;
                    span "http://chambersontheroad.com/creeper" 138 150;
                    span "http://wheels.example" 178 190] |}.

Definition blog_entry : dict :=
  list_to_map
    [("city", VStr "Damascus"); ("state", VStr "VA"); ("hookup_code", VNone);
     ("campground", VDict (named "Creeper Trail RV" (Some "http://creeper.example")));
     ("trail", VDict (named "Virginia Creeper Trail" None));
     ("blog_post", VStr "Riding the Creeper");
     ("blog_post_link", VStr "http://chambersontheroad.com/creeper");
     ("contributor", VStr "Pat");
     ("contributor_blog", VStr "Wheels and Spokes");
     ("contributor_blog_link", VStr "http://wheels.example")].

(** An environment without a credential, whose service would answer. *)
Definition sample_place : place :=
  {| place_id := Some "ChIJ-lake-lure"; display_text := Some "Lake Lure Campground";
     formatted_address := None; latitude := Some (Qc_of_Z 35); longitude := None |}.

Definition keyless_env : env :=
  {| GOOGLE_MAPS_API_KEY := Some ""; GOOGLE_PLACES_API_KEY_var := None;
     post := λ _, Body (Some [sample_place]); pdf_page := sample_page |}.

(** A record fit for the store: no [None] at its top level, and a campground
    that is an object when there is one. *)
Definition record_ok (e : dict) : Prop :=
  (∀ k, e !! k ≠ Some VNone)
  ∧ (e !! "campground" = None ∨ ∃ d, e !! "campground" = Some (VDict d)).

(** A computation that does not write the store file, whether it returns
    or raises. *)
Definition keeps_store {A} (m : M A) : Prop := ∀ w, store_file (m w).2 = store_file w.

(** Arguments of a run in list mode, and of a run that saves the second
    entry of a page of Part 2. *)
Definition list_args : args :=
  {| arg_entry := 0; arg_part := 1; arg_list := true; arg_save := true;
     arg_no_coords := false |}.


(** ** Heading lines

    The text of a heading as the guide prints it: a city, a comma, a
    two-letter state and, for some entries, a hook-up code in brackets. *)

Fixpoint all_chars (p : ascii → bool) (s : string) : bool :=
  match s with
  | String c s' => p c && all_chars p s'
  | EmptyString => true
  end.

(** A capital followed by one or more characters of the city class. *)
Definition is_city (city : string) : bool :=
  match city with
  | String c0 (String c1 t) =>
      is_upper_AZ c0 && Pat.city_char c1 && all_chars Pat.city_char t
  | _ => false
  end.

Definition is_state (st : string) : bool :=
  match st with
  | String a (String b "") => is_upper_AZ a && is_upper_AZ b
  | _ => false
  end.

Definition is_code (code : option ascii) : bool :=
  match code with Some x => is_upper_AZ x | None => true end.

Definition code_suffix (code : option ascii) : string :=
  match code with
  | Some x => String " " (String "(" (String x (String ")" "")))
  | None => ""
  end.

Definition heading_text (city st : string) (code : option ascii) : string :=
  city +:+ ", " +:+ st +:+ code_suffix code.

(** The heading pattern from its comma on. *)
Definition heading_tail : regex :=
  (Lit "," >> Plus Pat.ws >> Grp 2 (Rep 2 is_upper_AZ)
     >> Opt (Plus Pat.ws >> Lit "(" >> Grp 3 (Cls is_upper_AZ) >> Lit ")") >> Eos)%re.

(** * Properties *)

(** ** Lines of a text *)

Section Lines.

Lemma prefix_nl c s : String.prefix nl (String c s) = Ascii.eqb c nl_char.
Proof.
  unfold nl. cbn [String.prefix]. destruct (ascii_dec nl_char c) as [<-|Hne].
  - rewrite Ascii.eqb_refl. by destruct s.
  - symmetry. apply Ascii.eqb_neq. congruence.
Qed.

Lemma lines_cons c s :
  lines (String c s)
  = if Ascii.eqb c nl_char then "" :: lines s
    else match lines s with
         | h :: t => String c h :: t
         | [] => [String c ""]
         end.
Proof. unfold lines, split. cbn [split_go]. by rewrite prefix_nl. Qed.

Lemma lines_nonempty s : lines s ≠ [].
Proof.
  destruct s as [|c s]; [done|]. rewrite lines_cons.
  destruct (Ascii.eqb c nl_char); [done|]. by destruct (lines s).
Qed.

Lemma NoNl_cons c s : NoNl (String c s) ↔ c ≠ nl_char ∧ NoNl s.
Proof.
  unfold NoNl. cbn [contains]. rewrite prefix_nl, orb_false_iff.
  by rewrite Ascii.eqb_neq.
Qed.

Lemma lines_NoNl s : Forall NoNl (lines s).
Proof.
  induction s as [|c s IH]; [by repeat constructor|].
  rewrite lines_cons. destruct (Ascii.eqb c nl_char) eqn:Hc.
  - by constructor.
  - apply Ascii.eqb_neq in Hc. destruct (lines s) as [|h t].
    + repeat constructor. by apply NoNl_cons.
    + inversion IH; subst. constructor; [by apply NoNl_cons | done].
Qed.

Lemma lines_single s : NoNl s → lines s = [s].
Proof.
  induction s as [|c s IH]; [done|]. intros [Hc Hs]%NoNl_cons.
  rewrite lines_cons. apply Ascii.eqb_neq in Hc. rewrite Hc.
  by rewrite (IH Hs).
Qed.

Lemma lines_append_nl s t : NoNl s → lines (s +:+ nl +:+ t) = s :: lines t.
Proof.
  induction s as [|c s IH].
  - intros _. change ("" +:+ nl +:+ t) with (String nl_char t).
    rewrite lines_cons. by rewrite Ascii.eqb_refl.
  - intros [Hc Hs]%NoNl_cons. change (String c s +:+ nl +:+ t) with (String c (s +:+ nl +:+ t)).
    rewrite lines_cons. apply Ascii.eqb_neq in Hc. rewrite Hc.
    by rewrite (IH Hs).
Qed.

(** Splitting the joined lines of a block gives the lines back. *)
Lemma lines_unlines (ls : list string) :
  ls ≠ [] → Forall NoNl ls → lines (unlines ls) = ls.
Proof.
  induction ls as [|x ls IH]; [done|]. intros _ Hall.
  inversion Hall as [|? ? Hx Hls]; subst.
  destruct ls as [|y ls].
  - by apply lines_single.
  - change (unlines (x :: y :: ls)) with (x +:+ nl +:+ unlines (y :: ls)).
    rewrite lines_append_nl by done. by rewrite IH.
Qed.

End Lines.

(** ** Entry segmentation *)

Section Segmentation.

Lemma flush_start_lines es cur start :
  start_line <$> flush es cur start
  = (start_line <$> es) ++ match cur with [] => [] | _ => [start] end.
Proof.
  destruct cur; simpl; [by rewrite app_nil_r|].
  by rewrite fmap_app.
Qed.

(** The blocks the loop produces start at the heading lines, in order. *)
Lemma seg_loop_start_lines ls : ∀ i es cur start es' cur' start',
  (cur = [] ↔ start = None) →
  seg_loop i ls es cur start = (es', cur', start') →
  start_line <$> flush es' cur' start'
  = (start_line <$> flush es cur start) ++ (Some <$> heading_indices_from i ls).
Proof.
  induction ls as [|line ls IH]; intros i es cur start es' cur' start' Hinv Hrun.
  - simpl in Hrun. injection Hrun as <- <- <-. by rewrite app_nil_r.
  - simpl in Hrun. simpl. destruct (is_heading_line line).
    + apply IH in Hrun; [|done]. rewrite Hrun.
      rewrite (flush_start_lines (flush es cur start)).
      rewrite fmap_cons. by rewrite <- app_assoc.
    + destruct start as [j|].
      * destruct (is_footer_line line); [by apply IH in Hrun|].
        apply IH in Hrun.
        -- rewrite Hrun. f_equal. rewrite !flush_start_lines.
           destruct cur; [|done]. by destruct Hinv as [Hinv _]; specialize (Hinv eq_refl).
        -- split; [by destruct cur | done].
      * by apply IH in Hrun.
Qed.


Lemma good_block_mk all j cur :
  block_lines all j cur → Forall NoNl cur → good_block all (mk_block (Some j) cur).
Proof.
  intros Hb Hnl. exists j. repeat split; try done. simpl.
  rewrite lines_unlines; [done| |done].
  by destruct Hb as (h & rest & -> & _).
Qed.

Lemma good_flush all es cur start :
  Forall (good_block all) es →
  (cur = [] ∨ ∃ j, start = Some j ∧ block_lines all j cur ∧ Forall NoNl cur) →
  Forall (good_block all) (flush es cur start).
Proof.
  intros Hes [->|(j & -> & Hb & Hnl)]; [done|].
  destruct cur as [|x cur]; [done|]. simpl.
  apply Forall_app. split; [done|]. constructor; [|done].
  by apply good_block_mk.
Qed.

(** Every block the loop produces is a heading line followed by lines that
    are neither footers nor headings. *)
Lemma seg_loop_good all ls : ∀ i es cur start es' cur' start',
  Forall NoNl all →
  drop i all = ls →
  Forall (good_block all) es →
  (cur = [] ∧ start = None
   ∨ ∃ j, start = Some j ∧ block_lines all j cur ∧ Forall NoNl cur) →
  seg_loop i ls es cur start = (es', cur', start') →
  Forall (good_block all) (flush es' cur' start').
Proof.
  induction ls as [|line ls IH]; intros i es cur start es' cur' start' Hall Hdrop Hes Hcur Hrun.
  - simpl in Hrun. injection Hrun as <- <- <-.
    apply good_flush; [done|]. destruct Hcur as [[-> _]|?]; [by left | by right].
  - assert (all !! i = Some line) as Hi.
    { rewrite <- (Nat.add_0_r i), <- lookup_drop, Hdrop. done. }
    assert (drop (S i) all = ls) as Hdrop'.
    { rewrite <- (Nat.add_1_r i), <- drop_drop, Hdrop. done. }
    assert (NoNl line) as Hline.
    { eapply Forall_lookup_1 in Hall; [exact Hall | exact Hi]. }
    simpl in Hrun. destruct (is_heading_line line) eqn:Hh.
    + eapply IH in Hrun; [done|done|done| |].
      * apply good_flush; [done|]. destruct Hcur as [[-> _]|?]; [by left | by right].
      * right. exists i. repeat split; [|by repeat constructor].
        exists line, []. by repeat split.
    + destruct Hcur as [[-> ->]|(j & -> & Hb & Hnl)].
      * eapply IH in Hrun; [done|done|done|done|by left].
      * destruct (is_footer_line line) eqn:Hf.
        -- eapply IH in Hrun; [done|done|done|done|]. right. by exists j.
        -- eapply IH in Hrun; [done|done|done|done|]. right. exists j.
           repeat split; [|apply Forall_app; by repeat constructor].
           destruct Hb as (h & rest & -> & Hj & Hhh & Hrest).
           exists h, (rest ++ [line]). repeat split; try done.
           apply Forall_app. split; [done|]. by repeat constructor.
Qed.

End Segmentation.



(** ** Field parsing: which keys each step touches *)

Section Fields.

Implicit Types (entry : dict) (k : string).

Lemma parse_heading_other ls entry k :
  k ≠ "city" → k ≠ "state" → k ≠ "hookup_code" →
  parse_heading ls entry !! k = entry !! k.
Proof.
  intros ???. induction ls as [|line ls IH]; [done|]. simpl.
  destruct (re_match Pat.heading (strip line)); [|done].
  by rewrite !lookup_insert_ne.
Qed.

Lemma campground_link_nonneg links words (n : nat) :
  campground_link links words (Z.of_nat n)
  = Ok (match label_words "Campground:" words !! n with
        | Some w => validate_campground_link (find_link_for_position links (w_top w))
        | None => None
        end).
Proof.
  unfold campground_link, campground_anchor, getitem, py_index.
  destruct (Z.ltb_spec (Z.of_nat n) (Z.of_nat (List.length (label_words "Campground:" words))))
    as [Hlt|Hge].
  - apply Nat2Z.inj_lt in Hlt. apply lookup_lt_is_Some_2 in Hlt as [w Hw].
    assert ((0 <=? Z.of_nat n)%Z = true) as -> by (apply Z.leb_le; lia).
    rewrite Nat2Z.id, Hw. done.
  - apply Nat2Z.inj_le in Hge. by rewrite (lookup_ge_None_2 _ _ Hge).
Qed.

Lemma parse_campground_other links words idx text entry entry' k :
  parse_campground links words idx text entry = Ok entry' →
  k ≠ "campground" → entry' !! k = entry !! k.
Proof.
  unfold parse_campground. intros H Hk.
  destruct (campground_name text); [|by injection H as <-].
  destruct (campground_link links words idx); [|done].
  injection H as <-. by rewrite lookup_insert_ne.
Qed.

Lemma parse_campground_field links words idx text entry entry' :
  parse_campground links words idx text entry = Ok entry' →
  match campground_name text with
  | Some cg_name =>
      ∃ cg_link, campground_link links words idx = Ok cg_link
                 ∧ entry' !! "campground" = Some (VDict (named cg_name cg_link))
  | None => entry' !! "campground" = entry !! "campground"
  end.
Proof.
  unfold parse_campground. intros H.
  destruct (campground_name text); [|by injection H as <-].
  destruct (campground_link links words idx) as [cg_link|]; [|done].
  injection H as <-. exists cg_link. by rewrite lookup_insert_eq.
Qed.

Lemma parse_cg_notes_other text entry k :
  k ≠ "cg_notes" → parse_cg_notes text entry !! k = entry !! k.
Proof.
  intros ?. unfold parse_cg_notes. destruct (re_search Pat.cg_notes text); [|done].
  by rewrite lookup_insert_ne.
Qed.

Lemma parse_trails_other links words pes idx text entry k :
  k ≠ "trail" → k ≠ "trails" →
  parse_trails links words pes idx text entry !! k = entry !! k.
Proof.
  intros ??. unfold parse_trails.
  destruct (build_trails links words pes idx text) as [|t [|t' ts]]; [done| |];
    by rewrite ?lookup_insert_ne.
Qed.

Lemma parse_trails_trail links words pes idx text entry :
  entry !! "trail" = None →
  parse_trails links words pes idx text entry !! "trail"
  = VDict <$> head (build_trails links words pes idx text).
Proof.
  intros ?. unfold parse_trails.
  destruct (build_trails links words pes idx text) as [|t [|t' ts]]; [done| |];
    by rewrite lookup_insert_eq.
Qed.

Lemma parse_trails_trails links words pes idx text entry :
  entry !! "trails" = None →
  parse_trails links words pes idx text entry !! "trails"
  = match build_trails links words pes idx text with
    | (_ :: _ :: _) as trails => Some (VList trails)
    | _ => None
    end.
Proof.
  intros ?. unfold parse_trails.
  destruct (build_trails links words pes idx text) as [|t [|t' ts]]; [done| |].
  - by rewrite lookup_insert_ne.
  - rewrite lookup_insert_ne by done. by rewrite lookup_insert_eq.
Qed.

Lemma parse_plain_other r key text entry k :
  k ≠ key → parse_plain r key text entry !! k = entry !! k.
Proof.
  intros ?. unfold parse_plain. destruct (re_search r text); [|done].
  by rewrite lookup_insert_ne.
Qed.

Lemma parse_blog_post_other links words pes idx text entry k :
  k ≠ "blog_post" → k ≠ "blog_post_link" →
  parse_blog_post links words pes idx text entry !! k = entry !! k.
Proof.
  intros ??. unfold parse_blog_post.
  destruct (re_search Pat.blog_post text); [|done].
  destruct (label_words "Related" words !! related_word_offset pes idx);
    [|by rewrite lookup_insert_ne].
  destruct (filter _ links); by rewrite ?lookup_insert_ne.
Qed.

Lemma parse_contributor_blog_other links text entry entry' k :
  parse_contributor_blog links text entry = Ok entry' →
  k ≠ "contributor_blog" → k ≠ "contributor_blog_link" →
  entry' !! k = entry !! k.
Proof.
  unfold parse_contributor_blog. intros H ??.
  destruct (re_search Pat.contributor_blog text); [|by injection H as <-].
  destruct (get2 _ "campground" "link"); [|done].
  destruct (get2 _ "trail" "link"); [|done].
  simpl in H. injection H as <-.
  destruct (first_unused_link _ links); by rewrite ?lookup_insert_ne.
Qed.

Lemma get2_ok (d : dict) k1 k2 :
  (d !! k1 = None ∨ ∃ n, d !! k1 = Some (VDict n)) → ∃ a, get2 d k1 k2 = Ok a.
Proof. unfold get2. intros [->|[n ->]]; eauto. Qed.

Lemma parse_contributor_blog_ok links text entry :
  (entry !! "campground" = None ∨ ∃ n, entry !! "campground" = Some (VDict n)) →
  (entry !! "trail" = None ∨ ∃ n, entry !! "trail" = Some (VDict n)) →
  ∃ entry', parse_contributor_blog links text entry = Ok entry'.
Proof.
  intros Hc Ht. unfold parse_contributor_blog.
  destruct (re_search Pat.contributor_blog text); [|by eexists].
  destruct (get2_ok (<["contributor_blog":=VStr (group1 r)]> entry) "campground" "link") as [a ->].
  { by rewrite lookup_insert_ne. }
  destruct (get2_ok (<["contributor_blog":=VStr (group1 r)]> entry) "trail" "link") as [b ->].
  { by rewrite lookup_insert_ne. }
  by eexists.
Qed.

End Fields.

(** ** Field parsing: the fields of the result *)

Section ParseEntry.

Implicit Types (entry : dict) (k : string).

Lemma Err_bind_ok {A B} (f : A → Err B) (a : A) : (Ok a ≫= f) = f a.
Proof. done. Qed.

(** What a completed [parse_entry] holds under the keys the claims are
    about. *)
Lemma parse_entry_inv links words pes idx text entry :
  parse_entry links words pes idx text = Ok entry →
  match campground_name text with
  | Some cg_name =>
      ∃ cg_link, campground_link links words idx = Ok cg_link
                 ∧ entry !! "campground" = Some (VDict (named cg_name cg_link))
  | None => entry !! "campground" = None
  end
  ∧ entry !! "cg_notes"
    = (λ m, VStr (rstrip_dot (group1 m))) <$> re_search Pat.cg_notes text
  ∧ entry !! "trail" = VDict <$> head (build_trails links words pes idx text)
  ∧ entry !! "trails"
    = match build_trails links words pes idx text with
      | (_ :: _ :: _) as trails => Some (VList trails)
      | _ => None
      end.
Proof.
  unfold parse_entry. intros H.
  destruct (parse_campground links words idx text (parse_heading (lines text) ∅))
    as [e1|] eqn:Hc; [|done].
  rewrite Err_bind_ok in H.
  assert (∀ k, k ≠ "campground" → k ≠ "city" → k ≠ "state" → k ≠ "hookup_code" →
               e1 !! k = None) as He1.
  { intros k ????. rewrite (parse_campground_other _ _ _ _ _ _ _ Hc) by done.
    by rewrite parse_heading_other. }
  pose proof (parse_campground_field _ _ _ _ _ _ Hc) as Hcg.
  split; [|split; [|split]].
  - rewrite (parse_contributor_blog_other _ _ _ _ "campground" H) by done.
    rewrite parse_plain_other, parse_blog_post_other, !parse_plain_other,
      parse_trails_other, parse_cg_notes_other by done.
    destruct (campground_name text); [done|].
    rewrite Hcg. by rewrite parse_heading_other.
  - rewrite (parse_contributor_blog_other _ _ _ _ "cg_notes" H) by done.
    rewrite parse_plain_other, parse_blog_post_other, !parse_plain_other,
      parse_trails_other by done.
    unfold parse_cg_notes. destruct (re_search Pat.cg_notes text) as [m|].
    + by rewrite lookup_insert_eq.
    + by apply He1.
  - rewrite (parse_contributor_blog_other _ _ _ _ "trail" H) by done.
    rewrite parse_plain_other, parse_blog_post_other, !parse_plain_other by done.
    apply parse_trails_trail. rewrite parse_cg_notes_other by done. by apply He1.
  - rewrite (parse_contributor_blog_other _ _ _ _ "trails" H) by done.
    rewrite parse_plain_other, parse_blog_post_other, !parse_plain_other by done.
    apply parse_trails_trails. rewrite parse_cg_notes_other by done. by apply He1.
Qed.

(** With an index that is not negative the parse completes. *)
Lemma parse_entry_total links words pes (n : nat) text :
  ∃ entry, parse_entry links words pes (Z.of_nat n) text = Ok entry.
Proof.
  unfold parse_entry.
  destruct (parse_campground links words (Z.of_nat n) text (parse_heading (lines text) ∅))
    as [e1|e] eqn:Hc.
  - rewrite Err_bind_ok. apply parse_contributor_blog_ok.
    + rewrite parse_plain_other, parse_blog_post_other, !parse_plain_other,
        parse_trails_other, parse_cg_notes_other by done.
      pose proof (parse_campground_field _ _ _ _ _ _ Hc) as Hcg.
      destruct (campground_name text).
      * destruct Hcg as (l & _ & ->). eauto.
      * left. rewrite Hcg. by rewrite parse_heading_other.
    + rewrite parse_plain_other, parse_blog_post_other, !parse_plain_other by done.
      rewrite parse_trails_trail.
      * destruct (build_trails _ _ _ _ _); simpl; eauto.
      * rewrite parse_cg_notes_other by done.
        rewrite (parse_campground_other _ _ _ _ _ _ _ Hc) by done.
        by rewrite parse_heading_other.
  - exfalso. unfold parse_campground in Hc. rewrite campground_link_nonneg in Hc.
    by destruct (campground_name text).
Qed.

End ParseEntry.

(** ** Extraction of an entry the page has *)

Section Extract.

Lemma getitem_nonneg {A} (l : list A) (n : nat) (x : A) :
  l !! n = Some x → getitem l (Z.of_nat n) = Ok x.
Proof.
  intros H. unfold getitem, py_index.
  assert ((0 <=? Z.of_nat n)%Z = true) as -> by (apply Z.leb_le; lia).
  by rewrite Nat2Z.id, H.
Qed.

Lemma extract_in_range (pg : page) (n : nat) (b : entry_block) (w : world) :
  find_entries_on_page (page_text pg) !! n = Some b →
  ∃ entry,
    parse_entry (page_links pg) (page_words pg) (find_entries_on_page (page_text pg))
                (Z.of_nat n) (text b) = Ok entry
    ∧ extract_entry_from_page pg (Z.of_nat n) w = (Ok (entry, text b, page_links pg), w).
Proof.
  intros Hb.
  destruct (parse_entry_total (page_links pg) (page_words pg)
              (find_entries_on_page (page_text pg)) n (text b)) as [entry He].
  exists entry. split; [done|].
  unfold extract_entry_from_page.
  destruct (find_entries_on_page (page_text pg)) as [|b0 pes] eqn:Hpes; [done|].
  rewrite <- Hpes in *.
  assert ((Z.of_nat (List.length (find_entries_on_page (page_text pg))) <=? Z.of_nat n)%Z = false)
    as ->.
  { apply Z.leb_gt. apply lookup_lt_Some in Hb. lia. }
  rewrite (getitem_nonneg _ _ _ Hb).
  unfold mbind, M_bind, lift. by rewrite He.
Qed.

Lemma extract_out_of_range (pg : page) (idx : Z) (w : world) :
  find_entries_on_page (page_text pg) ≠ [] →
  (Z.of_nat (List.length (find_entries_on_page (page_text pg))) ≤ idx)%Z →
  extract_entry_from_page pg idx w
  = (Ok (∅, page_text pg, page_links pg),
     {| store_file := store_file w;
        printed := printed w
                   ++ [MsgIndexOutOfRange idx (List.length (find_entries_on_page (page_text pg)))] |}).
Proof.
  intros Hne Hle. unfold extract_entry_from_page.
  destruct (find_entries_on_page (page_text pg)) as [|b0 pes] eqn:Hpes; [done|].
  rewrite <- Hpes in *. by apply Z.leb_le in Hle as ->.
Qed.

End Extract.

(** ** Link attribution *)

Section Links.

Lemma find_link_first_in_band links text_y :
  find_link_for_position links text_y = first_in_band links text_y.
Proof.
  unfold first_in_band. induction links as [|l links IH]; [done|].
  cbn [find_link_for_position list_find]. destruct (in_band l text_y) eqn:Hb.
  - by rewrite decide_True.
  - rewrite decide_False by done. rewrite IH.
    by destruct (list_find _ links) as [[i x]|].
Qed.

Lemma trail_matches_empty : trail_matches "" = [].
Proof. vm_compute. reflexivity. Qed.

Lemma trail_offset_fold (pes : list entry_block) (n acc : nat) :
  fold_left
    (λ acc ei,
       acc + List.length (trail_matches (match pes !! ei with Some b => text b | None => "" end)))
    (seq 0 n) acc
  = acc + trail_fields_before pes n.
Proof.
  unfold trail_fields_before. induction n as [|n IH].
  - simpl. lia.
  - rewrite seq_S, fold_left_app, IH. simpl.
    destruct (pes !! n) as [b|] eqn:Hn.
    + rewrite (take_S_r _ _ _ Hn), sum_list_with_app. simpl. lia.
    + apply lookup_ge_None in Hn. rewrite !take_ge by lia.
      rewrite trail_matches_empty. simpl. lia.
Qed.

(** The loop over the earlier entries counts their trail fields. *)
Lemma trail_word_offset_sum (pes : list entry_block) (n : nat) :
  trail_word_offset pes (Z.of_nat n) = trail_fields_before pes n.
Proof. unfold trail_word_offset. rewrite Nat2Z.id. by rewrite trail_offset_fold. Qed.

Lemma build_trails_lookup links words pes (n i : nat) text :
  build_trails links words pes (Z.of_nat n) text !! i
  = (λ trail_name,
       named (rstrip_dot (strip trail_name))
             (first_in_band_at links (label_words "Trail:" words !! (trail_fields_before pes n + i))))
    <$> trail_matches text !! i.
Proof.
  unfold build_trails. rewrite list_lookup_imap.
  unfold trail_link, trail_anchor. rewrite trail_word_offset_sum.
  destruct (trail_matches text !! i); [|done]. simpl. f_equal. f_equal.
  unfold first_in_band_at. destruct (_ !! _); [|done].
  apply find_link_first_in_band.
Qed.

End Links.

Section Anchors.


End Anchors.




(** ** The text before a separator *)

Section Split.

Lemma app_cons a s t : String a s +:+ t = String a (s +:+ t).
Proof. done. Qed.

Lemma app_nil s : "" +:+ s = s.
Proof. done. Qed.

Lemma prefix_true t : ∀ s, String.prefix t s = true ↔ ∃ r, s = t +:+ r.
Proof.
  induction t as [|a t IH]; intros s.
  - destruct s; simpl; (split; [by eexists | done]).
  - destruct s as [|b s]; simpl; [split; [done | by intros [r Hr]]|].
    destruct (ascii_dec a b) as [->|Hne].
    + rewrite IH. split; intros [r Hr]; exists r.
      * by rewrite Hr.
      * rewrite app_cons in Hr. by injection Hr.
    + split; [done|]. intros [r Hr]. rewrite app_cons in Hr. by injection Hr.
Qed.

Lemma prefix_app t s r : String.prefix t s = true → String.prefix t (s +:+ r) = true.
Proof.
  rewrite !prefix_true. intros [q ->]. exists (q +:+ r).
  induction t as [|a t IH]; [done|]. rewrite !app_cons. by f_equal.
Qed.

Lemma contains_prefix_false t c s :
  contains t (String c s) = false → String.prefix t (String c s) = false ∧ contains t s = false.
Proof. cbn [contains]. by intros [??]%orb_false_iff. Qed.

(** The first piece of a split holds no separator; it is the whole string
    when there is none, and the part before the first one otherwise. *)
Lemma split_head a sep' s :
  let sep := String a sep' in
  ∃ h t, split sep s = h :: t
         ∧ contains sep h = false
         ∧ (contains sep s = false → h = s)
         ∧ (contains sep s = true → ∃ rest, s = h +:+ sep +:+ rest).
Proof.
  intros sep. unfold split. induction s as [|c s IH].
  - exists "", []. assert (contains sep "" = false) as Hf by done.
    split; [done|]. split; [done|]. split; [done|]. by rewrite Hf.
  - cbn [split_go]. destruct (String.prefix sep (String c s)) eqn:Hp.
    + exists "", (split_go sep (String.length sep - 1) s). repeat split.
      * intros H. cbn [contains] in H. by rewrite Hp in H.
      * intros _. apply prefix_true in Hp as [r ->]. by exists r.
    + destruct IH as (h & t & -> & Hh & Hnone & Hsome).
      exists (String c h), t. split; [done|]. split; [|split].
      * cbn [contains]. rewrite Hh, orb_false_r.
        destruct (String.prefix sep (String c h)) eqn:Hp'; [|done].
        destruct (contains sep s) eqn:Hs.
        -- destruct (Hsome eq_refl) as [rest ->].
           apply (prefix_app _ _ (sep +:+ rest)) in Hp'. rewrite app_cons in Hp'. congruence.
        -- rewrite <- (Hnone eq_refl) in Hp. congruence.
      * intros [_ Hs]%contains_prefix_false. by rewrite (Hnone Hs).
      * cbn [contains]. rewrite Hp. simpl. intros Hs.
        destruct (Hsome Hs) as [rest ->]. by exists rest.
Qed.

Lemma trail_section_spec text :
  contains "Trail Notes:" (trail_section text) = false
  ∧ (contains "Trail Notes:" text = false ∧ trail_section text = text
     ∨ ∃ rest, text = trail_section text +:+ "Trail Notes:" +:+ rest).
Proof.
  unfold trail_section. destruct (contains "Trail Notes:" text) eqn:Hc.
  - destruct (split_head "T" "rail Notes:" text) as (h & t & -> & Hh & _ & Hsome).
    split; [done|]. right. by apply Hsome.
  - split; [done|]. by left.
Qed.

End Split.

(** ** Trails *)

Section Trails.

Lemma named_name name lnk : named name lnk !! "name" = Some (AStr name).
Proof. unfold named. by rewrite lookup_insert_ne, lookup_insert_eq. Qed.

Lemma named_link name lnk : named name lnk !! "link" = Some (opt_atom lnk).
Proof. unfold named. by rewrite lookup_insert_eq. Qed.

Lemma build_trails_names links words pes idx text :
  (λ t : gmap string atom, t !! "name") <$> build_trails links words pes idx text
  = (λ m, Some (AStr (rstrip_dot (strip m)))) <$> trail_matches text.
Proof.
  unfold build_trails. rewrite fmap_imap. rewrite <- imap_const. apply imap_ext.
  intros i m _. simpl. apply named_name.
Qed.

End Trails.

(** C3.  For every entry block of a page, the trails of the entry are the
    matches of the trail pattern in the text before the first [Trail Notes:]
    (the whole block when there is none), in the order found, each name
    stripped; a single trail is stored under [trail] alone, and several are
    stored as the list [trails] with the first of them under [trail] too. *)
Theorem trails_field_and_list (pg : page) (n : nat) (b : entry_block) (w : world) :
  find_entries_on_page (page_text pg) !! n = Some b →
  ∃ entry trails,
    extract_entry_from_page pg (Z.of_nat n) w = (Ok (entry, text b, page_links pg), w)
    ∧ (λ t : gmap string atom, t !! "name") <$> trails
      = (λ m, Some (AStr (rstrip_dot (strip m))))
          <$> re_findall Pat.trail (trail_section (text b))
    ∧ contains "Trail Notes:" (trail_section (text b)) = false
    ∧ (contains "Trail Notes:" (text b) = false ∧ trail_section (text b) = text b
       ∨ ∃ rest, text b = trail_section (text b) +:+ "Trail Notes:" +:+ rest)
    ∧ match trails with
      | [] => entry !! "trail" = None ∧ entry !! "trails" = None
      | [t] => entry !! "trail" = Some (VDict t) ∧ entry !! "trails" = None
      | t :: _ :: _ =>
          entry !! "trail" = Some (VDict t) ∧ entry !! "trails" = Some (VList trails)
      end.
Proof.
  intros Hb. destruct (extract_in_range pg n b w Hb) as (entry & Hparse & Hrun).
  exists entry, (build_trails (page_links pg) (page_words pg)
                   (find_entries_on_page (page_text pg)) (Z.of_nat n) (text b)).
  destruct (parse_entry_inv _ _ _ _ _ _ Hparse) as (_ & _ & Htrail & Htrails).
  destruct (trail_section_spec (text b)) as [Hsec Hcut].
  split; [done|]. split; [apply build_trails_names|]. split; [done|]. split; [done|].
  rewrite Htrail, Htrails. by destruct (build_trails _ _ _ _ _) as [|t [|t' ts]].
Qed.

Lemma trails_field_and_list_witness :
  find_entries_on_page (page_text sample_page) !! 0
  = Some (mk_block (Some 1) ["Asheville, NC"; "Campground: Lake Lure..";
                             "CG Notes: Nice. Quiet..."; "Trail: A Trail."; "Trail: B";
                             "Trail Notes: see Trail: C"])
  ∧ ∃ entry t1 t2 raw_text,
      (extract_entry_from_page sample_page 0 fresh_world).1
      = Ok (entry, raw_text, page_links sample_page)
      ∧ entry !! "trails" = Some (VList [t1; t2])
      ∧ entry !! "trail" = Some (VDict t1)
      ∧ t1 !! "name" = Some (AStr "A Trail") ∧ t2 !! "name" = Some (AStr "B").
Proof.
  assert (find_entries_on_page (page_text sample_page) !! 0
          = Some (mk_block (Some 1) ["Asheville, NC"; "Campground: Lake Lure..";
                                     "CG Notes: Nice. Quiet..."; "Trail: A Trail."; "Trail: B";
                                     "Trail Notes: see Trail: C"])) as Hb
    by (vm_compute; reflexivity).
  split; [exact Hb|].
  destruct (trails_field_and_list sample_page 0 _ fresh_world Hb)
    as (entry & trails & Hrun & Hnames & _ & _ & Hfields).
  assert (re_findall Pat.trail
            (trail_section
               (text (mk_block (Some 1)
                        ["Asheville, NC"; "Campground: Lake Lure..";
                         "CG Notes: Nice. Quiet..."; "Trail: A Trail."; "Trail: B";
                         "Trail Notes: see Trail: C"])))
          = ["A Trail"; "B"]) as Hfound by (vm_compute; reflexivity).
  rewrite Hfound in Hnames.
  assert ((λ m, Some (AStr (rstrip_dot (strip m)))) <$> ["A Trail"; "B"]
          = [Some (AStr "A Trail"); Some (AStr "B")]) as Hstripped
    by (vm_compute; reflexivity).
  rewrite Hstripped in Hnames.
  destruct trails as [|t1 [|t2 [|t3 ts]]]; try discriminate Hnames.
  injection Hnames as Hn1 Hn2. destruct Hfields as [Htrail Htrails].
  change (Z.of_nat 0) with 0%Z in Hrun. rewrite Hrun. do 4 eexists.
  split; [reflexivity|]. split; [exact Htrails|]. split; [exact Htrail|].
  split; [exact Hn1 | exact Hn2].
Defined.

(** ** The campground link *)

Section CampgroundLink.

Lemma lower_app s t : lower (s +:+ t) = lower s +:+ lower t.
Proof.
  induction s as [|c s IH]; [done|]. rewrite app_cons. cbn [lower].
  by rewrite IH, app_cons.
Qed.

Lemma prefix_lower t s :
  String.prefix t s = true → String.prefix (lower t) (lower s) = true.
Proof. rewrite !prefix_true. intros [r ->]. exists (lower r). apply lower_app. Qed.

(** A substring stays one when both strings are put in lower case. *)
Lemma contains_lower t s : contains t s = true → contains (lower t) (lower s) = true.
Proof.
  induction s as [|c s IH]; cbn [contains lower].
  - rewrite !orb_false_r. apply (prefix_lower t "").
  - intros [Hp|Hc]%orb_true_iff; apply orb_true_iff.
    + left. apply (prefix_lower t (String c s) Hp).
    + right. by apply IH.
Qed.

Lemma validate_campground_link_Some potential u :
  validate_campground_link potential = Some u →
  potential = Some u ∧ u ≠ "" ∧ is_trail_link u = false.
Proof.
  unfold validate_campground_link. destruct potential as [v|]; [|done].
  destruct (truthy v) eqn:Ht; [|done]. destruct (is_trail_link v) eqn:Hl; [done|].
  intros [= <-]. split; [done|]. split; [|done]. intros ->. done.
Qed.

Lemma is_trail_link_false u :
  is_trail_link u = false ↔ Forall (λ kw, contains kw (lower u) = false) trail_keywords.
Proof.
  unfold is_trail_link. generalize trail_keywords. intros kws.
  induction kws as [|kw kws IH]; cbn [existsb].
  - split; [constructor | done].
  - split.
    + intros [Hkw Hkws]%orb_false_iff. constructor; [done | by apply IH].
    + intros H. inversion H as [|? ? Hkw Hkws]; subst.
      apply orb_false_iff. split; [done | by apply IH].
Qed.

Lemma campground_link_validated links words idx cg_link u :
  campground_link links words idx = Ok cg_link → cg_link = Some u →
  u ≠ "" ∧ is_trail_link u = false.
Proof.
  unfold campground_link. intros H ->.
  destruct (campground_anchor words idx) as [[a|]|]; [|done|done].
  rewrite Err_bind_ok in H. injection H as H.
  by apply validate_campground_link_Some in H as (_ & ? & ?).
Qed.

Lemma extract_inv (pg : page) (idx : Z) (w w' : world) entry raw_text links :
  extract_entry_from_page pg idx w = (Ok (entry, raw_text, links), w') →
  entry = ∅
  ∨ ∃ b, parse_entry (page_links pg) (page_words pg)
           (find_entries_on_page (page_text pg)) idx (text b) = Ok entry.
Proof.
  unfold extract_entry_from_page.
  destruct (find_entries_on_page (page_text pg)) as [|b0 pes] eqn:Hpes.
  { intros [= <- _ _ _]. by left. }
  rewrite <- Hpes.
  destruct (Z.of_nat (List.length (find_entries_on_page (page_text pg))) <=? idx)%Z.
  { intros [= <- _ _ _]. by left. }
  unfold mbind, M_bind, lift.
  destruct (getitem (find_entries_on_page (page_text pg)) idx) as [b|]; [|done].
  destruct (parse_entry _ _ _ idx (text b)) as [e|] eqn:He; [|done].
  intros [= <- _ _ _]. right. by exists b.
Qed.

End CampgroundLink.

(** C7.  Whatever the page and the entry asked for, the link stored for the
    campground holds none of the trail keywords once put in lower case; so a
    candidate whose URI contains a keyword in any mix of cases is never the
    campground link, wherever it lies on the page. *)
Theorem campground_link_never_trail (pg : page) (idx : Z) (w w' : world)
    (entry : dict) (raw_text : string) (links : list link)
    (cg : gmap string atom) (u : string) :
  extract_entry_from_page pg idx w = (Ok (entry, raw_text, links), w') →
  entry !! "campground" = Some (VDict cg) →
  cg !! "link" = Some (AStr u) →
  Forall (λ kw, contains kw (lower u) = false) trail_keywords
  ∧ ∀ kw, lower kw ∈ trail_keywords → contains kw u = false.
Proof.
  intros Hrun Hcg Hu.
  assert (is_trail_link u = false) as Hnot.
  { apply extract_inv in Hrun as [->|[b Hparse]]; [done|].
    destruct (parse_entry_inv _ _ _ _ _ _ Hparse) as (Hc & _).
    destruct (campground_name (text b)) as [cg_name|]; [|congruence].
    destruct Hc as (cg_link & Hlink & Hc). rewrite Hc in Hcg. injection Hcg as <-.
    rewrite named_link in Hu. destruct cg_link as [v|]; [|done].
    injection Hu as ->. by eapply campground_link_validated. }
  apply is_trail_link_false in Hnot. split; [done|].
  intros kw Hkw. destruct (contains kw u) eqn:Hc; [|done].
  apply contains_lower in Hc. rewrite Forall_forall in Hnot.
  apply list_elem_of_In in Hkw. by rewrite (Hnot _ Hkw) in Hc.
Qed.

Lemma campground_link_never_trail_witness :
  extract_entry_from_page sample_page 0 fresh_world
  = (Ok (sample_entry, sample_raw_text, page_links sample_page), fresh_world)
  ∧ sample_entry !! "campground"
    = Some (VDict (named "Lake Lure" (Some "http://lakelure.example")))
  ∧ named "Lake Lure" (Some "http://lakelure.example") !! "link"
    = Some (AStr "http://lakelure.example")
  ∧ contains "TrailLink.com" "http://lakelure.example" = false.
Proof.
  assert (extract_entry_from_page sample_page 0 fresh_world
          = (Ok (sample_entry, sample_raw_text, page_links sample_page), fresh_world))
    as Hrun by (vm_compute; reflexivity).
  assert (sample_entry !! "campground"
          = Some (VDict (named "Lake Lure" (Some "http://lakelure.example"))))
    as Hcg by (vm_compute; reflexivity).
  split; [exact Hrun|]. split; [exact Hcg|]. split; [apply named_link|].
  apply (campground_link_never_trail _ _ _ _ _ _ _ _ _ Hrun Hcg (named_link _ _)).
  change (lower "TrailLink.com") with "traillink.com". unfold trail_keywords.
  do 2 apply list_elem_of_further. apply list_elem_of_here.
Defined.

(** ** Trailing periods *)

Section Periods.

Lemma rstrip_by_cons p c s :
  rstrip_by p (String c s)
  = match rstrip_by p s with
    | EmptyString => if p c then EmptyString else String c EmptyString
    | r => String c r
    end.
Proof. done. Qed.

Lemma rstrip_dot_no_dot s : ends_with_dot (rstrip_dot s) = false.
Proof.
  unfold rstrip_dot. induction s as [|c s IH]; [done|].
  rewrite rstrip_by_cons. destruct (rstrip_by is_dot s) as [|d r] eqn:Hr.
  - destruct (is_dot c) eqn:Hc; [done|]. cbn. by rewrite Hc.
  - exact IH.
Qed.

Lemma rstrip_dot_dots s : ∃ k, s = rstrip_dot s +:+ dots k.
Proof.
  unfold rstrip_dot. induction s as [|c s [k IH]]; [by exists 0|].
  rewrite rstrip_by_cons. destruct (rstrip_by is_dot s) as [|d r] eqn:Hr.
  - destruct (is_dot c) eqn:Hc.
    + exists (S k). apply Ascii.eqb_eq in Hc as ->. rewrite app_nil in *.
      cbn [dots]. by f_equal.
    + exists k. rewrite app_cons. by f_equal.
  - exists k. rewrite app_cons. by f_equal.
Qed.

Lemma rstrip_dot_stripped s : all_dots_stripped (rstrip_dot s) s.
Proof. split; [apply rstrip_dot_no_dot | apply rstrip_dot_dots]. Qed.

Lemma build_trails_elem links words pes idx text t :
  t ∈ build_trails links words pes idx text →
  ∃ m lnk, m ∈ trail_matches text ∧ t = named (rstrip_dot (strip m)) lnk.
Proof.
  unfold build_trails. intros (i & Hi)%list_elem_of_lookup.
  rewrite list_lookup_imap in Hi.
  destruct (trail_matches text !! i) as [m|] eqn:Hm; [|done].
  injection Hi as <-. exists m. eexists. split; [|done].
  by eapply list_elem_of_lookup_2.
Qed.

End Periods.

(** C8 (as amended).  For every entry of a page, the campground name, the
    CG notes and every trail name are the captured text, trimmed, with all
    of its trailing periods removed: the value never ends with a period,
    however many periods the source text ends with. *)
Theorem trailing_periods_all_stripped (pg : page) (n : nat) (b : entry_block) (w : world) :
  find_entries_on_page (page_text pg) !! n = Some b →
  ∃ entry,
    extract_entry_from_page pg (Z.of_nat n) w = (Ok (entry, text b, page_links pg), w)
    ∧ (∀ cg name,
         entry !! "campground" = Some (VDict cg) → cg !! "name" = Some (AStr name) →
         ∃ m, re_search Pat.campground (text b) = Some m
              ∧ all_dots_stripped name (group1 m))
    ∧ (∀ notes,
         entry !! "cg_notes" = Some (VStr notes) →
         ∃ m, re_search Pat.cg_notes (text b) = Some m
              ∧ all_dots_stripped notes (group1 m))
    ∧ (∀ t name,
         (entry !! "trail" = Some (VDict t)
          ∨ ∃ ts, entry !! "trails" = Some (VList ts) ∧ t ∈ ts) →
         t !! "name" = Some (AStr name) →
         ∃ m, m ∈ trail_matches (text b) ∧ all_dots_stripped name (strip m)).
Proof.
  intros Hb. destruct (extract_in_range pg n b w Hb) as (entry & Hparse & Hrun).
  exists entry. split; [done|].
  destruct (parse_entry_inv _ _ _ _ _ _ Hparse) as (Hcg & Hnotes & Htrail & Htrails).
  split; [|split].
  - intros cg name Hc Hname. unfold campground_name in Hcg.
    destruct (re_search Pat.campground (text b)) as [m|]; [|congruence].
    destruct Hcg as (cg_link & _ & Hcg). rewrite Hcg in Hc. injection Hc as <-.
    rewrite named_name in Hname. injection Hname as <-.
    exists m. split; [done|]. apply rstrip_dot_stripped.
  - intros notes Hn. rewrite Hnotes in Hn.
    destruct (re_search Pat.cg_notes (text b)) as [m|]; [|done].
    injection Hn as <-. exists m. split; [done|]. apply rstrip_dot_stripped.
  - intros t name Ht Hname.
    assert (t ∈ build_trails (page_links pg) (page_words pg)
                  (find_entries_on_page (page_text pg)) (Z.of_nat n) (text b)) as Hin.
    { destruct Ht as [Ht|(ts & Hts & Hin)].
      - rewrite Htrail in Ht. destruct (build_trails _ _ _ _ _) as [|t0 ts]; [done|].
        injection Ht as <-. apply list_elem_of_here.
      - rewrite Htrails in Hts.
        destruct (build_trails _ _ _ _ _) as [|t0 [|t1 ts']]; [done|done|].
        by injection Hts as <-. }
    apply build_trails_elem in Hin as (m & lnk & Hm & ->).
    rewrite named_name in Hname. injection Hname as <-.
    exists m. split; [done|]. apply rstrip_dot_stripped.
Qed.

Lemma trailing_periods_all_stripped_witness :
  find_entries_on_page (page_text sample_page) !! 0
  = Some (mk_block (Some 1) ["Asheville, NC"; "Campground: Lake Lure..";
                             "CG Notes: Nice. Quiet..."; "Trail: A Trail."; "Trail: B";
                             "Trail Notes: see Trail: C"])
  ∧ ∃ entry,
      extract_entry_from_page sample_page 0 fresh_world
      = (Ok (entry, sample_raw_text, page_links sample_page), fresh_world)
      ∧ ∀ notes, entry !! "cg_notes" = Some (VStr notes) → ends_with_dot notes = false.
Proof.
  assert (find_entries_on_page (page_text sample_page) !! 0
          = Some (mk_block (Some 1) ["Asheville, NC"; "Campground: Lake Lure..";
                                     "CG Notes: Nice. Quiet..."; "Trail: A Trail."; "Trail: B";
                                     "Trail Notes: see Trail: C"])) as Hb
    by (vm_compute; reflexivity).
  split; [exact Hb|].
  destruct (trailing_periods_all_stripped sample_page 0 _ fresh_world Hb)
    as (entry & Hrun & _ & Hnotes & _).
  exists entry. split; [exact Hrun|].
  intros notes Hn. destruct (Hnotes notes Hn) as (m & _ & Hstripped & _). exact Hstripped.
Defined.

(** C8, the counterexample: a campground line that ends with two periods
    loses both, where the specified value keeps one. *)
Lemma two_periods_both_stripped : ¬ campground_name_as_specified "Lake Lure..".
Proof.
  unfold campground_name_as_specified.
  assert (campground_name ("Campground: " +:+ "Lake Lure.." +:+ nl) = Some "Lake Lure") as ->
    by (vm_compute; reflexivity).
  assert (strip_one_dot "Lake Lure.." = "Lake Lure.") as -> by (vm_compute; reflexivity).
  discriminate.
Qed.

(** ** The record built for the store *)

Section FinalEntry.

Implicit Types (entry : dict) (coordinates : option dict) (k : string).

Lemma final_entry_lookup entry coordinates k v :
  final_entry_of entry coordinates !! k = Some v
  ↔ build_final_entry entry coordinates !! k = Some v ∧ v ≠ VNone.
Proof. unfold final_entry_of, remove_none. by rewrite map_lookup_filter_Some. Qed.

Lemma final_entry_lookup_None entry coordinates k :
  build_final_entry entry coordinates !! k = Some VNone →
  final_entry_of entry coordinates !! k = None.
Proof.
  intros H. unfold final_entry_of, remove_none. apply map_lookup_filter_None.
  right. intros v Hv. rewrite H in Hv. injection Hv as <-. simpl. by intros ?.
Qed.

Lemma final_entry_no_none entry coordinates k :
  final_entry_of entry coordinates !! k ≠ Some VNone.
Proof. by intros [_ ?]%final_entry_lookup. Qed.

Ltac build_lookup :=
  unfold build_final_entry; rewrite !list_to_map_cons; cbn [fst snd];
  repeat (rewrite lookup_insert_ne by done); by rewrite lookup_insert_eq.

Lemma build_city entry coordinates :
  build_final_entry entry coordinates !! "city" = Some (dict_get entry "city").
Proof. build_lookup. Qed.

Lemma build_state entry coordinates :
  build_final_entry entry coordinates !! "state" = Some (dict_get entry "state").
Proof. build_lookup. Qed.

Lemma build_campground entry coordinates :
  build_final_entry entry coordinates !! "campground" = Some (dict_get entry "campground").
Proof. build_lookup. Qed.

Lemma build_trail entry coordinates :
  build_final_entry entry coordinates !! "trail" = Some (dict_get entry "trail").
Proof. build_lookup. Qed.

Lemma build_latitude entry coordinates :
  build_final_entry entry coordinates !! "latitude"
  = Some (coordinate_field coordinates "latitude").
Proof. build_lookup. Qed.

Lemma build_longitude entry coordinates :
  build_final_entry entry coordinates !! "longitude"
  = Some (coordinate_field coordinates "longitude").
Proof. build_lookup. Qed.

Lemma build_placeId entry coordinates :
  build_final_entry entry coordinates !! "placeId"
  = Some (coordinate_field coordinates "placeId").
Proof. build_lookup. Qed.

Lemma final_of_build entry coordinates k v :
  build_final_entry entry coordinates !! k = Some v →
  final_entry_of entry coordinates !! k = if decide (v = VNone) then None else Some v.
Proof.
  intros H. destruct (decide (v = VNone)) as [->|Hv].
  - by apply final_entry_lookup_None.
  - by apply final_entry_lookup.
Qed.

Lemma coordinate_field_carried coordinates k :
  (if decide (coordinate_field coordinates k = VNone) then None
   else Some (coordinate_field coordinates k))
  = carried coordinates k.
Proof.
  unfold coordinate_field, carried. destruct coordinates as [c|]; [|done].
  destruct (bool_decide (c ≠ ∅)) eqn:Hc.
  - destruct (c !! k) as [v|]; [done|]. cbn [default].
    by destruct (decide (VNone = VNone)).
  - apply bool_decide_eq_false in Hc. apply dec_stable in Hc as ->.
    rewrite lookup_empty. by destruct (decide (VNone = VNone)).
Qed.

Lemma error_result_lookup reason k : k ≠ "error" → error_result reason !! k = None.
Proof. intros ?. unfold error_result. by rewrite lookup_insert_ne. Qed.

End FinalEntry.

(** C6.  An error result (such as the one an empty places list gives)
    leaves the record built for the store without the keys [latitude],
    [longitude] and [placeId]; in general each of the three keys is there
    exactly when the coordinate result carries a value for it, and then with
    that value. *)
Theorem coordinates_only_when_carried (entry : dict) (coordinates : option dict)
    (reason : string) (maps_key places_key : option string) (pg : page)
    (name city state : string) :
  (final_entry_of entry (Some (error_result reason)) !! "latitude" = None
   ∧ final_entry_of entry (Some (error_result reason)) !! "longitude" = None
   ∧ final_entry_of entry (Some (error_result reason)) !! "placeId" = None)
  ∧ (∃ why,
       get_coordinates_from_google
         {| GOOGLE_MAPS_API_KEY := maps_key; GOOGLE_PLACES_API_KEY_var := places_key;
            post := λ _, Body (Some []); pdf_page := pg |}
         name city state
       = error_result why)
  ∧ (final_entry_of entry coordinates !! "latitude" = carried coordinates "latitude"
     ∧ final_entry_of entry coordinates !! "longitude" = carried coordinates "longitude"
     ∧ final_entry_of entry coordinates !! "placeId" = carried coordinates "placeId").
Proof.
  assert (∀ c,
            final_entry_of entry c !! "latitude" = carried c "latitude"
            ∧ final_entry_of entry c !! "longitude" = carried c "longitude"
            ∧ final_entry_of entry c !! "placeId" = carried c "placeId") as Hcarried.
  { intros c. repeat split.
    - rewrite (final_of_build _ _ _ _ (build_latitude entry c)).
      apply coordinate_field_carried.
    - rewrite (final_of_build _ _ _ _ (build_longitude entry c)).
      apply coordinate_field_carried.
    - rewrite (final_of_build _ _ _ _ (build_placeId entry c)).
      apply coordinate_field_carried. }
  split; [|split; [|apply Hcarried]].
  - destruct (Hcarried (Some (error_result reason))) as (-> & -> & ->).
    unfold carried. by rewrite !error_result_lookup.
  - unfold get_coordinates_from_google.
    destruct (GOOGLE_PLACES_API_KEY _) as [key|]; [|by eexists].
    destruct (negb (truthy key)); by eexists.
Qed.

(** ** The duplicate check and the merge *)

Section Store.

Implicit Types (entry final_entry e : dict) (es : list dict).

(** When the condition of the duplicate check completes, it says whether
    city, state and campground name are all equal. *)
Lemma is_duplicate_iff final_entry e (b : bool) :
  is_duplicate final_entry e = Ok b → (b = true ↔ same_key final_entry e).
Proof.
  unfold is_duplicate, subscript, same_key, dict_get.
  destruct (final_entry !! "city") as [c|]; [|done]. rewrite Err_bind_ok. cbn [default].
  case_bool_decide as Hc; [|intros [= <-]; split; [done | tauto]].
  destruct (final_entry !! "state") as [st|]; [|done]. rewrite Err_bind_ok. cbn [default].
  case_bool_decide as Hs; [|intros [= <-]; split; [done | tauto]].
  destruct (get2 e "campground" "name") as [n1|]; [|done]. rewrite Err_bind_ok.
  destruct (get2 final_entry "campground" "name") as [n2|]; [|done]. rewrite Err_bind_ok.
  intros [= <-]. rewrite bool_decide_eq_true. split.
  - intros ->. done.
  - intros (_ & _ & [= ->]). done.
Qed.

Lemma is_duplicate_Ok final_entry e (b : bool) :
  is_duplicate final_entry e = Ok b → b = bool_decide (same_key final_entry e).
Proof.
  intros H%is_duplicate_iff. destruct b.
  - symmetry. apply bool_decide_eq_true. by apply H.
  - symmetry. apply bool_decide_eq_false. intros Hk. by apply H in Hk.
Qed.

Lemma find_existing_Ok es final_entry r :
  find_existing es final_entry = Ok r →
  r = snd <$> list_find (same_key final_entry) es.
Proof.
  induction es as [|e es IH]; [by intros [= <-]|].
  cbn [find_existing list_find].
  destruct (is_duplicate final_entry e) as [b|] eqn:Hd; [|done].
  rewrite Err_bind_ok. apply is_duplicate_Ok in Hd as ->.
  case_bool_decide as Hk.
  - intros [= <-]. by rewrite decide_True.
  - intros H. rewrite decide_False by done. rewrite (IH H).
    by destruct (list_find _ es) as [[i x]|].
Qed.

(** The record found is at the first index where an equal record is. *)
Lemma index_of_found es final_entry (i : nat) e :
  list_find (same_key final_entry) es = Some (i, e) → index_of es e = Ok i.
Proof.
  intros (Hi & Hk & Hmin)%list_find_Some. unfold index_of.
  destruct (list_find (λ x, x = e) es) as [[j x]|] eqn:Hf.
  - apply list_find_Some in Hf as (Hj & -> & Hminj).
    destruct (Nat.lt_total i j) as [Hlt|[->|Hgt]]; [|done|].
    + by destruct (Hminj _ _ Hi Hlt).
    + by destruct (Hmin _ _ Hj Hgt).
  - apply list_find_None in Hf. rewrite Forall_forall in Hf.
    destruct (Hf e); [|done]. apply list_elem_of_In. by eapply list_elem_of_lookup_2.
Qed.

Lemma same_key_nonempty entry coordinates e :
  is_duplicate (final_entry_of entry coordinates) e = Ok true → e ≠ ∅.
Proof.
  unfold is_duplicate, subscript.
  destruct (final_entry_of entry coordinates !! "city") as [c|] eqn:Hc; [|done].
  rewrite Err_bind_ok. case_bool_decide as He; [|done]. intros _ ->.
  unfold dict_get in He. rewrite lookup_empty in He. cbn in He. subst c.
  by apply final_entry_no_none in Hc.
Qed.

Lemma find_existing_dup es final_entry e :
  find_existing es final_entry = Ok (Some e) → is_duplicate final_entry e = Ok true.
Proof.
  induction es as [|e0 es IH]; [done|]. cbn [find_existing].
  destruct (is_duplicate final_entry e0) as [[]|] eqn:Hd; [| |done]; rewrite Err_bind_ok.
  - by intros [= <-].
  - apply IH.
Qed.

End Store.

Section Save.

Implicit Types (entry final_entry e : dict) (es : list dict) (coordinates : option dict).

Lemma bind_run {A B} (m : M A) (f : A → M B) (w : world) :
  (m ≫= f) w
  = match m w with
    | (Ok a, w') => f a w'
    | (Raised e, w') => (Raised e, w')
    end.
Proof. done. Qed.

Lemma load_database_run (w : world) : load_database w = (Ok (loaded w), w).
Proof. done. Qed.

(** A save whose duplicate check completes writes the merged store. *)
Lemma save_completes entry coordinates (w : world) r :
  find_existing (entries (loaded w)) (final_entry_of entry coordinates) = Ok r →
  save_entry_to_database entry coordinates w
  = (Ok tt,
     {| store_file :=
          Some (with_entries (loaded w)
                  (merge_entry (final_entry_of entry coordinates) (entries (loaded w))));
        printed :=
          printed w ++ match r with Some _ => [MsgUpdating] | None => [] end
          ++ [MsgSaved (List.length
                          (merge_entry (final_entry_of entry coordinates)
                                       (entries (loaded w))))] |}).
Proof.
  intros Hfind. unfold save_entry_to_database.
  rewrite bind_run, load_database_run. rewrite bind_run. unfold lift at 1. rewrite Hfind.
  pose proof (find_existing_Ok _ _ _ Hfind) as Hr. unfold merge_entry.
  destruct r as [e|].
  - pose proof (find_existing_dup _ _ _ Hfind) as Hdup.
    apply same_key_nonempty in Hdup.
    destruct (list_find _ (entries (loaded w))) as [[i x]|] eqn:Hf; [|done].
    injection Hr as ->. rewrite bool_decide_eq_true_2 by done.
    rewrite !bind_run. unfold print at 1. unfold lift at 1.
    rewrite (index_of_found _ _ _ _ Hf).
    unfold mret, M_ret, write_store, print.
    repeat (rewrite bind_run; cbn [store_file printed entries with_entries]).
    by rewrite <- app_assoc.
  - destruct (list_find _ (entries (loaded w))) as [[i x]|] eqn:Hf; [done|].
    rewrite !bind_run.
    unfold mret, M_ret, write_store, print.
    repeat (rewrite bind_run; cbn [store_file printed entries with_entries]).
    by rewrite app_nil_l.
Qed.

(** A save whose duplicate check raises leaves the world as it was. *)
Lemma save_raises entry coordinates (w : world) (x : exn) :
  find_existing (entries (loaded w)) (final_entry_of entry coordinates) = Raised x →
  save_entry_to_database entry coordinates w = (Raised x, w).
Proof.
  intros Hfind. unfold save_entry_to_database.
  rewrite bind_run, load_database_run. rewrite bind_run. unfold lift at 1. by rewrite Hfind.
Qed.

End Save.

Section Merge.

Implicit Types (f e : dict) (es : list dict).

Lemma is_duplicate_ext f1 f2 e :
  f1 !! "city" = f2 !! "city" → f1 !! "state" = f2 !! "state" →
  get2 f1 "campground" "name" = get2 f2 "campground" "name" →
  is_duplicate f1 e = is_duplicate f2 e.
Proof. unfold is_duplicate, subscript. by intros -> -> ->. Qed.

Lemma is_duplicate_same f1 f2 (city state : value) (name : atom) :
  f1 !! "city" = Some city → f2 !! "city" = Some city →
  f1 !! "state" = Some state → f2 !! "state" = Some state →
  get2 f1 "campground" "name" = Ok name → get2 f2 "campground" "name" = Ok name →
  is_duplicate f2 f1 = Ok true.
Proof.
  intros Hc1 Hc2 Hs1 Hs2 Hn1 Hn2. unfold is_duplicate, subscript, dict_get.
  rewrite Hc1, Hc2, Hs1, Hs2, Hn1, Hn2. cbn [default].
  rewrite (Err_bind_ok _ city). rewrite bool_decide_eq_true_2 by done.
  rewrite (Err_bind_ok _ state). rewrite bool_decide_eq_true_2 by done.
  rewrite (Err_bind_ok _ name). rewrite (Err_bind_ok _ name).
  by rewrite bool_decide_eq_true_2.
Qed.

Lemma merge_entry_cons f1 e es :
  merge_entry f1 (e :: es)
  = if decide (same_key f1 e) then f1 :: es else e :: merge_entry f1 es.
Proof.
  unfold merge_entry. cbn [list_find]. destruct (decide (same_key f1 e)); [done|].
  by destruct (list_find (same_key f1) es) as [[i x]|].
Qed.

Lemma merge_entry_length f1 es :
  List.length es ≤ List.length (merge_entry f1 es).
Proof.
  unfold merge_entry. destruct (list_find _ es) as [[i x]|].
  - by rewrite length_insert.
  - rewrite length_app. lia.
Qed.

(** After a save, the duplicate check of a record with the same identity
    finds the record just stored. *)
Lemma find_existing_merged f1 f2 es r (city state : value) (name : atom) :
  find_existing es f1 = Ok r →
  f1 !! "city" = Some city → f2 !! "city" = Some city →
  f1 !! "state" = Some state → f2 !! "state" = Some state →
  get2 f1 "campground" "name" = Ok name → get2 f2 "campground" "name" = Ok name →
  find_existing (merge_entry f1 es) f2 = Ok (Some f1).
Proof.
  intros Hfind Hc1 Hc2 Hs1 Hs2 Hn1 Hn2.
  pose proof (is_duplicate_same _ _ _ _ _ Hc1 Hc2 Hs1 Hs2 Hn1 Hn2) as Hsame.
  revert r Hfind. induction es as [|e es IH]; intros r Hfind.
  - unfold merge_entry. cbn [list_find app find_existing]. by rewrite Hsame.
  - rewrite merge_entry_cons. cbn [find_existing] in Hfind.
    destruct (is_duplicate f1 e) as [b|] eqn:Hd; [|done]. rewrite Err_bind_ok in Hfind.
    pose proof (is_duplicate_Ok _ _ _ Hd) as ->.
    destruct (decide (same_key f1 e)) as [Hk|Hk].
    + cbn [find_existing]. by rewrite Hsame.
    + rewrite bool_decide_eq_false_2 in Hfind, Hd by done.
      cbn [find_existing].
      rewrite <- (is_duplicate_ext f1 f2) by congruence. rewrite Hd, Err_bind_ok.
      by eapply IH.
Qed.

(** Saving a record with the same identity again gives the store that
    saving it alone would have given. *)
Lemma merge_entry_twice f1 f2 es :
  (∀ e, same_key f1 e ↔ same_key f2 e) → same_key f2 f1 →
  merge_entry f2 (merge_entry f1 es) = merge_entry f2 es.
Proof.
  intros Hiff Hself. induction es as [|e es IH].
  - unfold merge_entry. cbn [list_find app]. by rewrite decide_True.
  - rewrite !merge_entry_cons. destruct (decide (same_key f1 e)) as [Hk|Hk].
    + rewrite merge_entry_cons.
      destruct (decide (same_key f2 f1)); [|done].
      destruct (decide (same_key f2 e)) as [|Hk2]; [done|].
      destruct Hk2. by apply Hiff.
    + rewrite merge_entry_cons.
      destruct (decide (same_key f2 e)) as [Hk2|]; [|by rewrite IH].
      destruct Hk. by apply Hiff.
Qed.

Lemma same_key_agree f1 f2 (city state : value) (name : atom) :
  f1 !! "city" = Some city → f2 !! "city" = Some city →
  f1 !! "state" = Some state → f2 !! "state" = Some state →
  get2 f1 "campground" "name" = Ok name → get2 f2 "campground" "name" = Ok name →
  (∀ e, same_key f1 e ↔ same_key f2 e) ∧ same_key f2 f1.
Proof.
  intros Hc1 Hc2 Hs1 Hs2 Hn1 Hn2. unfold same_key, dict_get.
  rewrite Hc1, Hc2, Hs1, Hs2, Hn1, Hn2. done.
Qed.

End Merge.

(** C4.  The duplicate check, when it completes, finds a stored record
    exactly when its city, state and campground name equal those of the new
    record; a save then replaces the first such record in place, or appends
    the new record when there is none.  Hence a second save of a record with
    the same city, state and campground name replaces the record the first
    save stored, at the same index: the store has the length it had after the
    first save and holds the content of the second. *)
Theorem save_replaces_or_appends (entry1 entry2 : dict) (c1 c2 : option dict)
    (w : world) (r : option dict) (city state : value) (name : atom) :
  find_existing (entries (loaded w)) (final_entry_of entry1 c1) = Ok r →
  final_entry_of entry1 c1 !! "city" = Some city →
  final_entry_of entry2 c2 !! "city" = Some city →
  final_entry_of entry1 c1 !! "state" = Some state →
  final_entry_of entry2 c2 !! "state" = Some state →
  get2 (final_entry_of entry1 c1) "campground" "name" = Ok name →
  get2 (final_entry_of entry2 c2) "campground" "name" = Ok name →
  (∀ e b, is_duplicate (final_entry_of entry1 c1) e = Ok b →
          (b = true ↔ same_key (final_entry_of entry1 c1) e))
  ∧ ∃ w1 w2 db1 db2 i,
      save_entry_to_database entry1 c1 w = (Ok tt, w1)
      ∧ store_file w1 = Some db1
      ∧ entries db1 = merge_entry (final_entry_of entry1 c1) (entries (loaded w))
      ∧ save_entry_to_database entry2 c2 w1 = (Ok tt, w2)
      ∧ store_file w2 = Some db2
      ∧ entries db1 !! i = Some (final_entry_of entry1 c1)
      ∧ entries db2 = <[i := final_entry_of entry2 c2]> (entries db1)
      ∧ List.length (entries db2) = List.length (entries db1)
      ∧ entries db2 = merge_entry (final_entry_of entry2 c2) (entries (loaded w)).
Proof.
  intros Hfind Hc1 Hc2 Hs1 Hs2 Hn1 Hn2.
  split; [intros e b; apply is_duplicate_iff|].
  pose proof (save_completes entry1 c1 w r Hfind) as Hsave1.
  pose proof (find_existing_merged _ _ _ _ _ _ _ Hfind Hc1 Hc2 Hs1 Hs2 Hn1 Hn2) as Hfind2.
  pose proof (find_existing_Ok _ _ _ Hfind2) as Hhit.
  destruct (list_find (same_key (final_entry_of entry2 c2))
              (merge_entry (final_entry_of entry1 c1) (entries (loaded w))))
    as [[i x]|] eqn:Hf; [|discriminate Hhit].
  cbn [fmap option_fmap option_map snd] in Hhit. apply (inj Some) in Hhit. subst x.
  apply list_find_Some in Hf as Hfi. destruct Hfi as (Hi & _ & _).
  match type of Hsave1 with _ = (_, ?w') => remember w' as w1 eqn:Hw1 end.
  assert (entries (loaded w1)
          = merge_entry (final_entry_of entry1 c1) (entries (loaded w))) as Hes1
    by (by rewrite Hw1).
  rewrite <- Hes1 in Hfind2.
  pose proof (save_completes entry2 c2 w1 _ Hfind2) as Hsave2.
  assert (merge_entry (final_entry_of entry2 c2) (entries (loaded w1))
          = <[i := final_entry_of entry2 c2]> (entries (loaded w1))) as Hmerge2.
  { unfold merge_entry at 1. by rewrite Hes1, Hf. }
  exists w1. eexists. exists (loaded w1). eexists. exists i.
  split; [exact Hsave1|]. split; [by rewrite Hw1|]. split; [exact Hes1|].
  split; [exact Hsave2|]. split; [reflexivity|].
  cbn [entries with_entries].
  split; [by rewrite Hes1|]. split; [exact Hmerge2|].
  split; [by rewrite Hmerge2, length_insert|].
  rewrite Hes1.
  destruct (same_key_agree _ _ _ _ _ Hc1 Hc2 Hs1 Hs2 Hn1 Hn2) as [Hiff Hself].
  by apply merge_entry_twice.
Qed.

Lemma save_replaces_or_appends_witness :
  find_existing (entries (loaded one_record_world)) (final_entry_of sample_entry None) = Ok None
  ∧ ∃ w1 w2 db2,
      save_entry_to_database sample_entry None one_record_world = (Ok tt, w1)
      ∧ save_entry_to_database sample_entry_again None w1 = (Ok tt, w2)
      ∧ store_file w2 = Some db2
      ∧ entries db2 = [other_record; final_entry_of sample_entry_again None].
Proof.
  assert (find_existing (entries (loaded one_record_world)) (final_entry_of sample_entry None)
          = Ok None) as Hfind by (vm_compute; reflexivity).
  split; [exact Hfind|].
  destruct (save_replaces_or_appends sample_entry sample_entry_again None None
              one_record_world None (VStr "Asheville") (VStr "NC") (AStr "Lake Lure") Hfind)
    as (_ & w1 & w2 & db1 & db2 & i & Hs1 & _ & _ & Hs2 & Hdb2 & _ & _ & _ & Hes2);
    try (vm_compute; reflexivity).
  exists w1, w2, db2. split; [exact Hs1|]. split; [exact Hs2|]. split; [exact Hdb2|].
  rewrite Hes2. vm_compute. reflexivity.
Defined.

(** ** What a save stores *)

Section Stored.

Implicit Types (entry f e : dict) (es : list dict) (coordinates : option dict).

Lemma merge_entry_holds f es : ∃ i, merge_entry f es !! i = Some f.
Proof.
  unfold merge_entry. destruct (list_find (same_key f) es) as [[i x]|] eqn:Hf.
  - apply list_find_Some in Hf as (Hi & _). exists i.
    apply list_lookup_insert_eq. by eapply lookup_lt_Some.
  - exists (List.length es). by rewrite lookup_app_r, Nat.sub_diag.
Qed.

Lemma final_entry_without_city entry coordinates :
  dict_get entry "city" = VNone → final_entry_of entry coordinates !! "city" = None.
Proof.
  intros H. apply final_entry_lookup_None. by rewrite build_city, H.
Qed.

Lemma find_existing_without_city f e es :
  f !! "city" = None → find_existing (e :: es) f = Raised (KeyError "city").
Proof. intros H. cbn [find_existing]. unfold is_duplicate, subscript. by rewrite H. Qed.

(** A save into an empty store appends, whatever the record holds. *)
Lemma save_to_empty_store entry coordinates (w : world) :
  entries (loaded w) = [] →
  save_entry_to_database entry coordinates w
  = (Ok tt,
     {| store_file := Some (with_entries (loaded w) [final_entry_of entry coordinates]);
        printed := printed w ++ [MsgSaved 1] |}).
Proof.
  intros Hes.
  assert (find_existing (entries (loaded w)) (final_entry_of entry coordinates) = Ok None)
    as Hfind by (by rewrite Hes).
  rewrite (save_completes _ _ _ _ Hfind). by rewrite Hes.
Qed.

End Stored.

(** C5 (as amended).  A save that completes stores the record built from
    the entry, with every top-level key whose value is [None] removed and
    every other key kept with its value: the stored record has no [None] at
    its top level.  The nested campground and trail objects are stored as
    they are, whatever their [link] holds. *)
Theorem top_level_none_pruned (entry : dict) (coordinates : option dict)
    (w : world) (r : option dict) :
  find_existing (entries (loaded w)) (final_entry_of entry coordinates) = Ok r →
  ∃ w' db i,
    save_entry_to_database entry coordinates w = (Ok tt, w')
    ∧ store_file w' = Some db
    ∧ entries db !! i = Some (final_entry_of entry coordinates)
    ∧ (∀ k, final_entry_of entry coordinates !! k ≠ Some VNone)
    ∧ (∀ k v, final_entry_of entry coordinates !! k = Some v
              ↔ build_final_entry entry coordinates !! k = Some v ∧ v ≠ VNone)
    ∧ (∀ d, entry !! "campground" = Some (VDict d) →
            final_entry_of entry coordinates !! "campground" = Some (VDict d))
    ∧ (∀ d, entry !! "trail" = Some (VDict d) →
            final_entry_of entry coordinates !! "trail" = Some (VDict d)).
Proof.
  intros Hfind.
  destruct (merge_entry_holds (final_entry_of entry coordinates) (entries (loaded w)))
    as [i Hi].
  eexists _, _, i. split; [exact (save_completes _ _ _ _ Hfind)|].
  split; [reflexivity|]. split; [exact Hi|].
  split; [intros k; apply final_entry_no_none|].
  split; [intros k v; apply final_entry_lookup|].
  split; intros d Hd; apply final_entry_lookup.
  - rewrite build_campground. unfold dict_get. by rewrite Hd.
  - rewrite build_trail. unfold dict_get. by rewrite Hd.
Qed.

Lemma top_level_none_pruned_witness :
  find_existing (entries (loaded fresh_world)) (final_entry_of sample_entry None) = Ok None
  ∧ ∃ w' db,
      save_entry_to_database sample_entry None fresh_world = (Ok tt, w')
      ∧ store_file w' = Some db
      ∧ entries db = [final_entry_of sample_entry None]
      ∧ final_entry_of sample_entry None !! "trail" = Some (VDict (named "A Trail" None)).
Proof.
  assert (find_existing (entries (loaded fresh_world)) (final_entry_of sample_entry None)
          = Ok None) as Hfind by reflexivity.
  split; [exact Hfind|].
  destruct (top_level_none_pruned sample_entry None fresh_world None Hfind)
    as (w' & db & i & Hsave & Hdb & _ & _ & _ & _ & Htrail).
  exists w', db. split; [exact Hsave|]. split; [exact Hdb|]. split.
  - rewrite (save_to_empty_store sample_entry None fresh_world eq_refl) in Hsave.
    injection Hsave as <-. cbn [store_file] in Hdb. injection Hdb as <-. reflexivity.
  - apply Htrail. vm_compute. reflexivity.
Defined.

(** C5, the counterexample: the record built from the first entry of the
    sample page keeps [link: None] inside its trail object. *)
Lemma nested_none_is_stored : ¬ null_free (final_entry_of sample_entry None).
Proof.
  intros H.
  assert (final_entry_of sample_entry None !! "trail" = Some (VDict (named "A Trail" None)))
    as Htrail by (vm_compute; reflexivity).
  apply H in Htrail. apply (Htrail "link"). vm_compute. reflexivity.
Qed.

(** C10 (as amended).  Saving an entry without a city raises [KeyError]
    for the key [city], and leaves the store and the output untouched, when
    the store already holds a record: the duplicate check looks the key up
    in the pruned record for the first stored record it meets.  With a store
    that is empty or missing the check meets no record, nothing is looked up,
    and the record is appended without a city. *)
Theorem save_without_city (entry : dict) (coordinates : option dict) (w : world) :
  dict_get entry "city" = VNone →
  (entries (loaded w) ≠ [] →
   save_entry_to_database entry coordinates w = (Raised (KeyError "city"), w))
  ∧ (entries (loaded w) = [] →
     save_entry_to_database entry coordinates w
     = (Ok tt,
        {| store_file := Some (with_entries (loaded w) [final_entry_of entry coordinates]);
           printed := printed w ++ [MsgSaved 1] |})).
Proof.
  intros Hcity. split; [|apply save_to_empty_store].
  intros Hne. apply save_raises.
  destruct (entries (loaded w)) as [|e es]; [done|].
  apply find_existing_without_city. by apply final_entry_without_city.
Qed.

Lemma save_without_city_witness :
  dict_get (hookup_only "full") "city" = VNone
  ∧ save_entry_to_database (hookup_only "full") None one_record_world
    = (Raised (KeyError "city"), one_record_world).
Proof.
  assert (dict_get (hookup_only "full") "city" = VNone) as Hcity by reflexivity.
  split; [exact Hcity|].
  apply (save_without_city (hookup_only "full") None one_record_world Hcity).
  discriminate.
Defined.

(** C10, the counterexample: with no store file, the save of an entry
    without a city returns normally and writes the record. *)
Lemma save_without_city_into_empty_store :
  ¬ save_raises_without_city (hookup_only "full") None fresh_world.
Proof.
  intros H. destruct (H eq_refl) as (w' & Hsave & _).
  rewrite (save_to_empty_store _ None fresh_world eq_refl) in Hsave. discriminate Hsave.
Qed.

(** ** A run with an index out of range *)

Section OutOfRange.

Lemma final_entry_hookup_only (full : bool) :
  final_entry_of (hookup_only (if full then "full" else "partial")) None
  = hookup_only (if full then "full" else "partial").
Proof. destruct full; vm_compute; reflexivity. Qed.

Lemma lookup_coordinates_hookup_only (e : env) (a : args) (ht : string) (w : world) :
  lookup_coordinates e a (hookup_only ht) w = (Ok None, w).
Proof.
  unfold lookup_coordinates. destruct (arg_no_coords a); [done|].
  rewrite bind_run. unfold lift, get2, hookup_only.
  rewrite lookup_insert_ne by done. by rewrite lookup_empty.
Qed.

End OutOfRange.

(** C9: what the script does with an index that is out of range.  The
    condition is printed and the entry comes back empty; with [--save] and an
    empty or missing store the run nevertheless writes the store, with one
    record that holds the hook-up type alone. *)
Theorem out_of_range_save_appends (e : env) (a : args) (w : world) :
  find_entries_on_page (page_text (pdf_page e)) ≠ [] →
  (Z.of_nat (List.length (find_entries_on_page (page_text (pdf_page e)))) ≤ arg_entry a)%Z →
  arg_list a = false →
  arg_save a = true →
  entries (loaded w) = [] →
  ∃ w',
    main e a w = (Ok tt, w')
    ∧ store_file w'
      = Some (with_entries (loaded w)
                [hookup_only (if Nat.eqb (arg_part a) 1 then "full" else "partial")])
    ∧ MsgIndexOutOfRange (arg_entry a)
        (List.length (find_entries_on_page (page_text (pdf_page e)))) ∈ printed w'.
Proof.
  intros Hne Hle Hlist Hsave Hempty. unfold main. rewrite Hlist, Hsave.
  rewrite bind_run. unfold print at 1. rewrite bind_run.
  rewrite (extract_out_of_range _ _ _ Hne Hle). cbn [fst snd store_file printed].
  fold (hookup_only (if Nat.eqb (arg_part a) 1 then "full" else "partial")).
  rewrite bind_run, lookup_coordinates_hookup_only.
  rewrite bind_run. unfold print at 1. cbn [store_file printed].
  rewrite save_to_empty_store by done. rewrite final_entry_hookup_only.
  eexists. split; [reflexivity|]. split; [reflexivity|].
  cbn [printed]. set_solver.
Qed.

Lemma out_of_range_save_appends_witness :
  (Z.of_nat (List.length (find_entries_on_page (page_text (pdf_page sample_env))))
   ≤ arg_entry out_of_range_args)%Z
  ∧ ∃ w', main sample_env out_of_range_args fresh_world = (Ok tt, w')
          ∧ store_file w'
            = Some {| entries := [hookup_only "full"];
                      metadata := ("2.0", "eBook PDF extraction") |}.
Proof.
  assert (List.length (find_entries_on_page (page_text (pdf_page sample_env))) = 2) as Hlen
    by (vm_compute; reflexivity).
  assert (Z.of_nat (List.length (find_entries_on_page (page_text (pdf_page sample_env))))
          ≤ arg_entry out_of_range_args)%Z as Hle
    by (rewrite Hlen; vm_compute; discriminate).
  split; [exact Hle|].
  destruct (out_of_range_save_appends sample_env out_of_range_args fresh_world)
    as (w' & Hrun & Hstore & _); [| exact Hle | reflexivity | reflexivity | reflexivity |].
  - intros Hnil. rewrite Hnil in Hlen. discriminate Hlen.
  - exists w'. split; [exact Hrun | exact Hstore].
Defined.

(** ** Link extraction *)

Section LinkExtraction.

Implicit Types (a : annotation) (annots : list annotation) (links : list link).

Lemma link_of_annotation_other height a :
  is_link_annotation a = false → link_of_annotation height a = Ok None.
Proof.
  unfold is_link_annotation, link_of_annotation.
  destruct (bool_decide (annot_subtype a = Some "/Link")); [|done].
  destruct (annot_action a) as [[u|]|]; [|done|done].
  by destruct (default [] (annot_rect a)).
Qed.

Lemma link_of_annotation_full height a :
  is_link_annotation a = true → 4 ≤ List.length (default [] (annot_rect a)) →
  link_of_annotation height a = Ok (link_of_rect height a) ∧ is_Some (link_of_rect height a).
Proof.
  unfold is_link_annotation, link_of_annotation, link_of_rect.
  destruct (bool_decide (annot_subtype a = Some "/Link")); [|done].
  destruct (annot_action a) as [[u|]|]; [|done|done].
  destruct (default [] (annot_rect a)) as [|r0 [|r1 [|r2 [|r3 rest]]]];
    cbn [List.length]; intros _ ?; try lia.
  split; [done | by eexists].
Qed.

Lemma link_of_annotation_short height a :
  is_link_annotation a = true → List.length (default [] (annot_rect a)) < 4 →
  link_of_annotation height a = Raised IndexError.
Proof.
  unfold is_link_annotation, link_of_annotation.
  destruct (bool_decide (annot_subtype a = Some "/Link")); [|done].
  destruct (annot_action a) as [[u|]|]; [|done|done].
  destruct (default [] (annot_rect a)) as [|r0 [|r1 [|r2 [|r3 rest]]]];
    cbn [List.length]; intros ??; try done; lia.
Qed.

Lemma collect_links_full height annots : ∀ links,
  Forall (λ a, is_link_annotation a = true → 4 ≤ List.length (default [] (annot_rect a)))
         annots →
  collect_links height annots links
  = Ok (links ++ omap (link_of_rect height) (filter (λ a, is_link_annotation a = true) annots)).
Proof.
  induction annots as [|a annots IH]; intros links Hall.
  - cbn. by rewrite app_nil_r.
  - inversion Hall as [|? ? Ha Hrest]; subst. cbn [collect_links].
    rewrite filter_cons. destruct (is_link_annotation a) eqn:Hlink.
    + destruct (link_of_annotation_full height a Hlink (Ha eq_refl)) as [-> [l Hl]].
      rewrite Err_bind_ok, Hl, (IH _ Hrest). rewrite decide_True by done.
      cbn [omap list_omap]. rewrite Hl. by rewrite <- app_assoc.
    + rewrite (link_of_annotation_other height a Hlink), Err_bind_ok, (IH _ Hrest).
      by rewrite decide_False.
Qed.

Lemma collect_links_short height annots : ∀ links a,
  a ∈ annots → is_link_annotation a = true → List.length (default [] (annot_rect a)) < 4 →
  collect_links height annots links = Raised IndexError.
Proof.
  induction annots as [|a0 annots IH]; intros links a Hin Hlink Hshort.
  - by apply not_elem_of_nil in Hin.
  - cbn [collect_links].
    destruct (is_link_annotation a0) eqn:Hlink0.
    + destruct (decide (List.length (default [] (annot_rect a0)) < 4)) as [Hs|Hs].
      * by rewrite (link_of_annotation_short height a0 Hlink0 Hs).
      * destruct (link_of_annotation_full height a0 Hlink0 ltac:(lia)) as [-> _].
        rewrite Err_bind_ok. apply elem_of_cons in Hin as [->|Hin]; [lia|].
        by eapply IH.
    + rewrite (link_of_annotation_other height a0 Hlink0), Err_bind_ok.
      apply elem_of_cons in Hin as [->|Hin]; [congruence|]. by eapply IH.
Qed.

End LinkExtraction.

(** X1.  When every link annotation with a target and a rectangle has the
    four numbers of its rectangle, link extraction returns one link per such
    annotation, in the order of the annotations, and nothing for the other
    annotations; a page without annotations gives no link. *)
Theorem extract_links_in_order (p : pdf_page_object) :
  Forall (λ a, is_link_annotation a = true → 4 ≤ List.length (default [] (annot_rect a)))
         (default [] (page_annots p)) →
  extract_links_from_page p
  = Ok (omap (link_of_rect (page_height p))
             (filter (λ a, is_link_annotation a = true) (default [] (page_annots p)))).
Proof.
  unfold extract_links_from_page. destruct (page_annots p) as [annots|]; [|done].
  cbn [default]. intros Hall. by rewrite (collect_links_full _ _ [] Hall).
Qed.

Lemma extract_links_in_order_witness :
  ∃ l, extract_links_from_page sample_page_object = Ok [l]
       ∧ uri l = "http://lakelure.example"
       ∧ in_band l (Qc_of_Z 100) = true.
Proof.
  eexists. split.
  - rewrite (extract_links_in_order sample_page_object).
    + vm_compute. reflexivity.
    + repeat constructor; vm_compute; (discriminate || lia).
  - split; [reflexivity|]. vm_compute. reflexivity.
Defined.

(** X2.  A link annotation with a target whose rectangle has one to three
    numbers makes link extraction raise IndexError, whatever the other
    annotations are. *)
Theorem extract_links_short_rect (p : pdf_page_object) (annots : list annotation)
    (a : annotation) :
  page_annots p = Some annots →
  a ∈ annots →
  is_link_annotation a = true →
  List.length (default [] (annot_rect a)) < 4 →
  extract_links_from_page p = Raised IndexError.
Proof.
  intros Hp Hin Hlink Hshort. unfold extract_links_from_page. rewrite Hp.
  by eapply collect_links_short.
Qed.

Lemma extract_links_short_rect_witness :
  short_annotation ∈ [sample_annotation; short_annotation]
  ∧ extract_links_from_page broken_page_object = Raised IndexError.
Proof.
  assert (short_annotation ∈ [sample_annotation; short_annotation]) as Hin
    by (apply list_elem_of_further, list_elem_of_here).
  split; [exact Hin|].
  apply (extract_links_short_rect broken_page_object _ short_annotation eq_refl Hin).
  - vm_compute. reflexivity.
  - vm_compute. lia.
Defined.

Section Bands.





End Bands.




(** ** More on segmentation and extraction *)

Section MoreSegmentation.

Lemma flush_lines es cur start :
  Forall NoNl cur →
  mjoin ((λ b, lines (text b)) <$> flush es cur start)
  = mjoin ((λ b, lines (text b)) <$> es) ++ cur.
Proof.
  intros Hnl. destruct cur as [|x cur]; cbn [flush].
  - by rewrite app_nil_r.
  - rewrite fmap_app, join_app. cbn [fmap list_fmap mjoin list_join text mk_block].
    rewrite lines_unlines by done. by rewrite app_nil_r.
Qed.

Lemma seg_loop_lines ls : ∀ i es cur start es' cur' start',
  Forall NoNl ls → Forall NoNl cur → (cur = [] ↔ start = None) →
  seg_loop i ls es cur start = (es', cur', start') →
  mjoin ((λ b, lines (text b)) <$> flush es' cur' start')
  = mjoin ((λ b, lines (text b)) <$> es) ++ cur
    ++ kept_lines (match start with Some _ => true | None => false end) ls.
Proof.
  induction ls as [|line ls IH]; intros i es cur start es' cur' start' Hls Hcur Hinv Hrun.
  - cbn in Hrun. injection Hrun as <- <- <-. cbn [kept_lines].
    rewrite app_nil_r. by apply flush_lines.
  - inversion Hls as [|? ? Hline Hls']; subst. cbn [seg_loop] in Hrun. cbn [kept_lines].
    destruct (is_heading_line line).
    + eapply IH in Hrun; [|done|by repeat constructor|done].
      rewrite Hrun, flush_lines by done. by rewrite <- !app_assoc.
    + destruct start as [j|].
      * cbn [andb]. destruct (is_footer_line line); cbn [negb].
        -- by eapply IH in Hrun.
        -- eapply IH in Hrun; [|done|apply Forall_app; by repeat constructor|].
           ++ rewrite Hrun. by rewrite <- !app_assoc.
           ++ split; [by destruct cur | done].
      * cbn [andb]. by eapply IH in Hrun.
Qed.

Lemma find_entries_good page_text :
  Forall (good_block (lines page_text)) (find_entries_on_page page_text).
Proof.
  unfold find_entries_on_page.
  destruct (seg_loop 0 (lines page_text) [] [] None) as [[es cur] start] eqn:Hrun.
  eapply seg_loop_good; [apply lines_NoNl|done|done| |exact Hrun]. by left.
Qed.


End MoreSegmentation.

(** X5.  Segmentation loses nothing but what it is meant to drop: the
    lines of the blocks, one block after the other, are the lines of the page
    from the first heading on, in page order, without the footer lines that
    are not headings; the lines before the first heading are in no block. *)
Theorem blocks_cover_kept_lines (page_text : string) :
  mjoin ((λ b, lines (text b)) <$> find_entries_on_page page_text)
  = kept_lines false (lines page_text).
Proof.
  unfold find_entries_on_page.
  destruct (seg_loop 0 (lines page_text) [] [] None) as [[es cur] start] eqn:Hrun.
  by rewrite (seg_loop_lines _ _ _ _ _ _ _ _ (lines_NoNl page_text) (Forall_nil_2 _)
                (conj (λ _, eq_refl) (λ _, eq_refl)) Hrun).
Qed.

Section HeadingFields.



End HeadingFields.





(** X8.  An index below minus the number of entries of the page is not
    reported as out of range: extraction raises IndexError, and nothing is
    printed. *)
Theorem extract_below_range_raises (pg : page) (idx : Z) (w : world) :
  find_entries_on_page (page_text pg) ≠ [] →
  (idx < - Z.of_nat (List.length (find_entries_on_page (page_text pg))))%Z →
  extract_entry_from_page pg idx w = (Raised IndexError, w).
Proof.
  intros Hne Hlt. unfold extract_entry_from_page.
  destruct (find_entries_on_page (page_text pg)) as [|b0 pes] eqn:Hpes; [done|].
  rewrite <- Hpes in *.
  assert ((Z.of_nat (List.length (find_entries_on_page (page_text pg))) <=? idx)%Z = false)
    as -> by (apply Z.leb_gt; lia).
  unfold getitem, py_index.
  assert ((0 <=? idx)%Z = false) as -> by (apply Z.leb_gt; lia).
  assert ((- Z.of_nat (List.length (find_entries_on_page (page_text pg))) <=? idx)%Z = false)
    as -> by (apply Z.leb_gt; lia).
  done.
Qed.

Lemma extract_below_range_raises_witness :
  (-3 < - Z.of_nat (List.length (find_entries_on_page (page_text sample_page))))%Z
  ∧ extract_entry_from_page sample_page (-3) fresh_world = (Raised IndexError, fresh_world).
Proof.
  assert (List.length (find_entries_on_page (page_text sample_page)) = 2) as Hlen
    by (vm_compute; reflexivity).
  assert (-3 < - Z.of_nat (List.length (find_entries_on_page (page_text sample_page))))%Z
    as Hlt by (rewrite Hlen; lia).
  split; [exact Hlt|].
  apply (extract_below_range_raises sample_page (-3) fresh_world); [|exact Hlt].
  intros Hnil. rewrite Hnil in Hlen. discriminate Hlen.
Defined.

(** ** Blog links *)

Section BlogLinks.


Lemma first_unused_link_Some used links u :
  first_unused_link used links = Some u →
  ∃ l, l ∈ links ∧ uri l = u ∧ (VAtom (AStr u) ∉ used)
       ∧ contains "chambersontheroad" u = false.
Proof.
  induction links as [|l links IH]; cbn [first_unused_link]; [done|].
  destruct (bool_decide (VStr (uri l) ∉ used)) eqn:Hused;
    [destruct (contains "chambersontheroad" (uri l)) eqn:Hblog|]; cbn [andb negb].
  - intros (l' & ? & ? & ? & ?)%IH. exists l'. by split; [apply list_elem_of_further|].
  - intros [= <-]. exists l. apply bool_decide_eq_true in Hused.
    by split; [apply list_elem_of_here|].
  - intros (l' & ? & ? & ? & ?)%IH. exists l'. by split; [apply list_elem_of_further|].
Qed.

End BlogLinks.


Section BlogFields.

Implicit Types (entry : dict).

Lemma parse_entry_blog_keys links words pes idx text entry :
  parse_entry links words pes idx text = Ok entry →
  ∃ e6 e8,
    e6 !! "blog_post_link" = None
    ∧ e8 !! "contributor_blog_link" = None
    ∧ e8 !! "blog_post_link"
      = parse_blog_post links words pes idx text e6 !! "blog_post_link"
    ∧ parse_contributor_blog links text e8 = Ok entry.
Proof.
  unfold parse_entry. intros H.
  destruct (parse_campground links words idx text (parse_heading (lines text) ∅))
    as [e1|] eqn:Hc; [|done].
  rewrite Err_bind_ok in H.
  assert (∀ k, k ≠ "campground" → k ≠ "city" → k ≠ "state" → k ≠ "hookup_code" →
               e1 !! k = None) as He1.
  { intros k ????. rewrite (parse_campground_other _ _ _ _ _ _ _ Hc) by done.
    by rewrite parse_heading_other. }
  match type of H with
  | parse_contributor_blog _ _ (parse_plain _ _ _ (parse_blog_post _ _ _ _ _ ?e)) = _ =>
      exists e, (parse_plain Pat.contributor "contributor" text
                   (parse_blog_post links words pes idx text e))
  end.
  split; [|split; [|split; [|exact H]]].
  - rewrite !parse_plain_other, parse_trails_other, parse_cg_notes_other by done.
    by apply He1.
  - rewrite parse_plain_other, parse_blog_post_other, !parse_plain_other,
      parse_trails_other, parse_cg_notes_other by done.
    by apply He1.
  - by rewrite parse_plain_other.
Qed.


Lemma parse_contributor_blog_link links text e8 entry u :
  parse_contributor_blog links text e8 = Ok entry →
  e8 !! "contributor_blog_link" = None →
  entry !! "contributor_blog_link" = Some (VStr u) →
  ∃ cg tr,
    get2 entry "campground" "link" = Ok cg
    ∧ get2 entry "trail" "link" = Ok tr
    ∧ first_unused_link [VAtom cg; VAtom tr; dict_get entry "blog_post_link"] links = Some u.
Proof.
  unfold parse_contributor_blog. intros H Hnone Hu.
  destruct (re_search Pat.contributor_blog text) as [m|]; [|injection H as <-; congruence].
  destruct (get2 _ "campground" "link") as [cg|] eqn:Hcg; [|done]. rewrite Err_bind_ok in H.
  destruct (get2 _ "trail" "link") as [tr|] eqn:Htr; [|done]. rewrite Err_bind_ok in H.
  destruct (first_unused_link _ links) as [u'|] eqn:Hfirst; injection H as <-.
  - rewrite lookup_insert_eq in Hu. injection Hu as <-. exists cg, tr.
    unfold get2, dict_get in *. rewrite !(lookup_insert_ne _ "contributor_blog_link") by done.
    done.
  - rewrite lookup_insert_ne in Hu by done. congruence.
Qed.

End BlogFields.



(** X11.  The contributor-blog link of an extracted entry is the URI of a
    link of the page; it never contains the blog marker and is never the
    campground link, the link of the first trail or the blog-post link of the
    entry. *)
Theorem contributor_blog_link_unused (pg : page) (idx : Z) (w w' : world)
    (entry : dict) (raw_text : string) (links : list link) (u : string) :
  extract_entry_from_page pg idx w = (Ok (entry, raw_text, links), w') →
  entry !! "contributor_blog_link" = Some (VStr u) →
  (∃ l, l ∈ page_links pg ∧ uri l = u)
  ∧ contains "chambersontheroad" u = false
  ∧ get2 entry "campground" "link" ≠ Ok (AStr u)
  ∧ get2 entry "trail" "link" ≠ Ok (AStr u)
  ∧ entry !! "blog_post_link" ≠ Some (VStr u).
Proof.
  intros Hrun Hu. apply extract_inv in Hrun as [->|[b Hparse]]; [done|].
  destruct (parse_entry_blog_keys _ _ _ _ _ _ Hparse) as (e6 & e8 & _ & He8 & _ & Hcb).
  destruct (parse_contributor_blog_link _ _ _ _ _ Hcb He8 Hu) as (cg & tr & Hcg & Htr & Hfirst).
  apply first_unused_link_Some in Hfirst as (l & Hl & Hul & Hused & Hblog).
  split; [by exists l|]. split; [done|].
  rewrite Hcg, Htr. repeat split.
  - intros [= ->]. apply Hused. apply list_elem_of_here.
  - intros [= ->]. apply Hused. apply list_elem_of_further, list_elem_of_here.
  - intros Hb. apply Hused. do 2 apply list_elem_of_further.
    unfold dict_get. rewrite Hb. apply list_elem_of_here.
Qed.

Lemma contributor_blog_link_unused_witness :
  extract_entry_from_page blog_page 0 fresh_world
  = (Ok (blog_entry, page_text blog_page, page_links blog_page), fresh_world)
  ∧ blog_entry !! "contributor_blog_link" = Some (VStr "http://wheels.example")
  ∧ contains "chambersontheroad" "http://wheels.example" = false.
Proof.
  assert (extract_entry_from_page blog_page 0 fresh_world
          = (Ok (blog_entry, page_text blog_page, page_links blog_page), fresh_world))
    as Hrun by (vm_compute; reflexivity).
  assert (blog_entry !! "contributor_blog_link" = Some (VStr "http://wheels.example"))
    as Hu by (vm_compute; reflexivity).
  split; [exact Hrun|]. split; [exact Hu|].
  by destruct (contributor_blog_link_unused _ _ _ _ _ _ _ _ Hrun Hu) as (_ & Hblog & _).
Defined.

(** ** The coordinate result *)

Section Coordinates.

Lemma place_result_keys (p : place) :
  place_result p !! "error" = None
  ∧ place_result p !! "placeId" = Some (VAtom (opt_atom (place_id p)))
  ∧ place_result p !! "latitude" = Some (VAtom (opt_num (latitude p)))
  ∧ place_result p !! "longitude" = Some (VAtom (opt_num (longitude p))).
Proof.
  unfold place_result. rewrite !list_to_map_cons, list_to_map_nil. cbn [fst snd].
  split; [|split; [|split]].
  - repeat (rewrite lookup_insert_ne by done). apply lookup_empty.
  - apply lookup_insert_eq.
  - repeat (rewrite lookup_insert_ne by done). apply lookup_insert_eq.
  - repeat (rewrite lookup_insert_ne by done). apply lookup_insert_eq.
Qed.

Lemma error_result_keys (reason : string) :
  error_result reason !! "error" = Some (VStr reason)
  ∧ error_result reason !! "placeId" = None
  ∧ error_result reason !! "latitude" = None
  ∧ error_result reason !! "longitude" = None.
Proof.
  unfold error_result. split; [|split; [|split]].
  - apply lookup_insert_eq.
  - by rewrite lookup_insert_ne, lookup_empty.
  - by rewrite lookup_insert_ne, lookup_empty.
  - by rewrite lookup_insert_ne, lookup_empty.
Qed.

End Coordinates.

(** X12.  The geocoding call returns either an error result, which has the
    key [error] and none of [placeId], [latitude], [longitude], or the fields
    of the first place of the answer, which has these three keys (each
    possibly [None]) and no key [error]; never a mix of the two. *)
Theorem coordinate_result_error_or_place (e : env) (name city state : string) :
  (∃ reason,
     get_coordinates_from_google e name city state = error_result reason
     ∧ error_result reason !! "error" = Some (VStr reason)
     ∧ error_result reason !! "placeId" = None
     ∧ error_result reason !! "latitude" = None
     ∧ error_result reason !! "longitude" = None)
  ∨ (∃ p rest,
       post e (name +:+ ", " +:+ city +:+ ", " +:+ state) = Body (Some (p :: rest))
       ∧ get_coordinates_from_google e name city state = place_result p
       ∧ place_result p !! "error" = None
       ∧ place_result p !! "placeId" = Some (VAtom (opt_atom (place_id p)))
       ∧ place_result p !! "latitude" = Some (VAtom (opt_num (latitude p)))
       ∧ place_result p !! "longitude" = Some (VAtom (opt_num (longitude p)))).
Proof.
  unfold get_coordinates_from_google.
  destruct (GOOGLE_PLACES_API_KEY e) as [key|];
    [|left; eexists; split; [reflexivity | apply error_result_keys]].
  destruct (negb (truthy key));
    [left; eexists; split; [reflexivity | apply error_result_keys]|].
  destruct (post e _) as [description|[[|p rest]|]] eqn:Hpost;
    try (left; eexists; split; [reflexivity | apply error_result_keys]).
  right. exists p, rest. split; [done|]. split; [done|]. apply place_result_keys.
Qed.

(** X13.  When neither environment variable holds a non-empty key, the
    geocoding call returns the error [No API key found], whatever the service
    would have answered. *)
Theorem no_api_key_found (e : env) (name city state : string) :
  (GOOGLE_MAPS_API_KEY e = None ∨ GOOGLE_MAPS_API_KEY e = Some "") →
  (GOOGLE_PLACES_API_KEY_var e = None ∨ GOOGLE_PLACES_API_KEY_var e = Some "") →
  get_coordinates_from_google e name city state = error_result "No API key found".
Proof.
  unfold get_coordinates_from_google, GOOGLE_PLACES_API_KEY.
  by intros [-> | ->] [-> | ->].
Qed.

Lemma no_api_key_found_witness :
  (GOOGLE_MAPS_API_KEY keyless_env = None ∨ GOOGLE_MAPS_API_KEY keyless_env = Some "")
  ∧ get_coordinates_from_google keyless_env "Lake Lure" "Asheville" "NC"
    = error_result "No API key found".
Proof.
  assert (GOOGLE_MAPS_API_KEY keyless_env = None ∨ GOOGLE_MAPS_API_KEY keyless_env = Some "")
    as Hmaps by (right; reflexivity).
  split; [exact Hmaps|].
  apply (no_api_key_found keyless_env "Lake Lure" "Asheville" "NC" Hmaps).
  left. reflexivity.
Defined.

(** ** What a save keeps *)

Section Keeps.

Implicit Types (entry f e : dict) (es : list dict) (coordinates : option dict).


Lemma find_existing_total f es (c s : value) :
  Forall (λ e, e !! "campground" = None ∨ ∃ d, e !! "campground" = Some (VDict d)) es →
  f !! "city" = Some c → f !! "state" = Some s →
  (f !! "campground" = None ∨ ∃ d, f !! "campground" = Some (VDict d)) →
  ∃ r, find_existing es f = Ok r.
Proof.
  intros Hes Hc Hs Hcg. induction Hes as [|e es He _ IH]; [by eexists|].
  cbn [find_existing]. destruct IH as [r IH].
  destruct (get2_ok e "campground" "name" He) as [n Hn].
  destruct (get2_ok f "campground" "name" Hcg) as [n' Hn'].
  unfold is_duplicate, subscript. rewrite Hc, Hs, Hn, Hn'.
  rewrite (Err_bind_ok _ c). destruct (bool_decide (dict_get e "city" = c)).
  - rewrite (Err_bind_ok _ s). destruct (bool_decide (dict_get e "state" = s)).
    + rewrite (Err_bind_ok _ n), (Err_bind_ok _ n').
      unfold mret, Err_ret. rewrite Err_bind_ok.
      destruct (bool_decide (n = n')); eauto.
    + unfold mret, Err_ret. rewrite Err_bind_ok. eauto.
  - unfold mret, Err_ret. rewrite Err_bind_ok. eauto.
Qed.

Lemma final_entry_field entry coordinates (k : string) (v : value) :
  build_final_entry entry coordinates !! k = Some v → v ≠ VNone →
  final_entry_of entry coordinates !! k = Some v.
Proof. intros. by apply final_entry_lookup. Qed.

Lemma final_entry_campground entry coordinates :
  (entry !! "campground" = None ∨ ∃ d, entry !! "campground" = Some (VDict d)) →
  final_entry_of entry coordinates !! "campground" = None
  ∨ ∃ d, final_entry_of entry coordinates !! "campground" = Some (VDict d).
Proof.
  intros [Hnone|[d Hd]].
  - left. apply final_entry_lookup_None. rewrite build_campground.
    unfold dict_get. by rewrite Hnone.
  - right. exists d. apply final_entry_field; [|done].
    rewrite build_campground. unfold dict_get. by rewrite Hd.
Qed.

Lemma final_entry_record_ok entry coordinates :
  (entry !! "campground" = None ∨ ∃ d, entry !! "campground" = Some (VDict d)) →
  record_ok (final_entry_of entry coordinates).
Proof.
  intros Hcg. split; [intros k; apply final_entry_no_none|].
  by apply final_entry_campground.
Qed.

Lemma merge_entry_ok f es :
  record_ok f → Forall record_ok es → Forall record_ok (merge_entry f es).
Proof.
  intros Hf Hes. unfold merge_entry. destruct (list_find (same_key f) es) as [[i x]|].
  - rewrite Forall_lookup. intros j e Hj.
    apply list_lookup_insert_Some in Hj as [(_ & <- & _)|[_ Hj]]; [done|].
    rewrite Forall_lookup in Hes. by eapply Hes.
  - apply Forall_app. split; [done|]. constructor; [done | constructor].
Qed.

End Keeps.



(** X15.  Saving an entry that has a city and a state, and whose campground
    is an object or absent, into a store of well-formed records never raises,
    and the store it writes is again one of well-formed records: no record
    has [None] at its top level and every campground is an object. *)
Theorem save_keeps_store_well_formed (entry : dict) (coordinates : option dict) (w : world) :
  Forall record_ok (entries (loaded w)) →
  dict_get entry "city" ≠ VNone →
  dict_get entry "state" ≠ VNone →
  (entry !! "campground" = None ∨ ∃ d, entry !! "campground" = Some (VDict d)) →
  ∃ w' db,
    save_entry_to_database entry coordinates w = (Ok tt, w')
    ∧ store_file w' = Some db
    ∧ Forall record_ok (entries db).
Proof.
  intros Hstore Hcity Hstate Hcg.
  destruct (find_existing_total (final_entry_of entry coordinates) (entries (loaded w))
              (dict_get entry "city") (dict_get entry "state")) as [r Hfind].
  - rewrite Forall_lookup in Hstore. apply Forall_lookup. intros j e Hj.
    by destruct (Hstore j e Hj) as [_ ?].
  - apply final_entry_field; [apply build_city | done].
  - apply final_entry_field; [apply build_state | done].
  - by apply final_entry_campground.
  - eexists _, _. split; [exact (save_completes _ _ _ _ Hfind)|].
    split; [reflexivity|]. cbn [entries with_entries].
    apply merge_entry_ok; [by apply final_entry_record_ok | done].
Qed.

Lemma save_keeps_store_well_formed_witness :
  Forall record_ok (entries (loaded one_record_world))
  ∧ ∃ w' db,
      save_entry_to_database sample_entry None one_record_world = (Ok tt, w')
      ∧ store_file w' = Some db
      ∧ Forall record_ok (entries db).
Proof.
  assert (Forall record_ok (entries (loaded one_record_world))) as Hstore.
  { constructor; [split|constructor].
    - intros k Hk. apply (final_entry_no_none other_record None k).
      assert (final_entry_of other_record None = other_record) as ->
        by (vm_compute; reflexivity).
      exact Hk.
    - right. eexists. vm_compute. reflexivity. }
  split; [exact Hstore|].
  apply (save_keeps_store_well_formed sample_entry None one_record_world Hstore).
  - vm_compute. discriminate.
  - vm_compute. discriminate.
  - right. eexists. vm_compute. reflexivity.
Defined.

(** ** Runs of the command line *)

Section Runs.

Lemma keeps_store_ret {A} (a : A) : keeps_store (mret a : M A).
Proof. by intros w. Qed.

Lemma keeps_store_print msg : keeps_store (print msg).
Proof. by intros w. Qed.

Lemma keeps_store_lift {A} (x : Err A) : keeps_store (lift x).
Proof. by intros w. Qed.

Lemma keeps_store_bind {A B} (m : M A) (f : A → M B) :
  keeps_store m → (∀ a, keeps_store (f a)) → keeps_store (m ≫= f).
Proof.
  intros Hm Hf w. rewrite bind_run. specialize (Hm w).
  destruct (m w) as [[a|x] w1]; cbn [snd] in *; [|done].
  by rewrite Hf.
Qed.

Lemma keeps_store_extract pg idx : keeps_store (extract_entry_from_page pg idx).
Proof.
  unfold extract_entry_from_page.
  destruct (find_entries_on_page (page_text pg)) as [|b0 pes] eqn:Hpes;
    [apply keeps_store_ret|].
  rewrite <- Hpes.
  destruct (Z.of_nat (List.length (find_entries_on_page (page_text pg))) <=? idx)%Z.
  - apply keeps_store_bind; [apply keeps_store_print | intros; apply keeps_store_ret].
  - apply keeps_store_bind; [apply keeps_store_lift|]. intros b.
    apply keeps_store_bind; [apply keeps_store_lift | intros; apply keeps_store_ret].
Qed.

Lemma keeps_store_lookup_coordinates e a entry :
  keeps_store (lookup_coordinates e a entry).
Proof.
  unfold lookup_coordinates. destruct (arg_no_coords a); [apply keeps_store_ret|].
  apply keeps_store_bind; [apply keeps_store_lift|]. intros name.
  destruct (atom_truthy name); [|apply keeps_store_ret].
  apply keeps_store_bind; [apply keeps_store_print | intros; apply keeps_store_ret].
Qed.

Lemma print_entries_run bs : ∀ (i : nat) (w : world),
  print_entries i bs w
  = (Ok tt,
     {| store_file := store_file w;
        printed :=
          printed w
          ++ imap (λ j b, MsgListed (i + j) (default "Unknown" (head (lines (text b))))
                            (match re_search Pat.campground (text b) with
                             | Some m => group1 m
                             | None => "Unknown"
                             end)) bs |}).
Proof.
  induction bs as [|b bs IH]; intros i w.
  - cbn [print_entries imap]. rewrite app_nil_r. by destruct w.
  - cbn [print_entries]. rewrite bind_run. unfold print at 1. rewrite IH.
    cbn [store_file printed]. rewrite imap_cons, Nat.add_0_r. f_equal. f_equal.
    rewrite <- app_assoc. cbn [app]. do 2 f_equal. apply imap_ext.
    intros j x _. cbn. by rewrite Nat.add_succ_r.
Qed.

Lemma find_entries_start_lines page_text :
  start_line <$> find_entries_on_page page_text = Some <$> heading_indices page_text.
Proof.
  unfold find_entries_on_page, heading_indices.
  destruct (seg_loop 0 (lines page_text) [] [] None) as [[es cur] start] eqn:Hrun.
  by rewrite (seg_loop_start_lines _ _ _ _ _ _ _ _ (conj (λ _, eq_refl) (λ _, eq_refl)) Hrun).
Qed.


End Runs.

(** X16.  In list mode a run never raises and never writes the store,
    whatever the other flags: it prints a header, one line per entry of the
    page, the i-th line showing the index i and the i-th heading line of the
    page, and a closing hint. *)
Theorem list_mode_only_prints (e : env) (a : args) (w : world) :
  arg_list a = true →
  ∃ msgs,
    main e a w
    = (Ok tt,
       {| store_file := store_file w;
          printed := printed w ++ [MsgEntriesOnPage] ++ msgs ++ [MsgUseEntry] |})
    ∧ List.length msgs = List.length (heading_indices (page_text (pdf_page e)))
    ∧ ∀ i msg, msgs !! i = Some msg →
        ∃ j h cg_name,
          msg = MsgListed i h cg_name
          ∧ heading_indices (page_text (pdf_page e)) !! i = Some j
          ∧ lines (page_text (pdf_page e)) !! j = Some h.
Proof.
  intros Hlist. unfold main. rewrite Hlist. unfold list_entries.
  rewrite bind_run. unfold print at 1. rewrite bind_run, print_entries_run.
  cbn [store_file printed]. unfold print. cbn [store_file printed].
  rewrite <- !app_assoc.
  eexists. split; [reflexivity|].
  pose proof (find_entries_start_lines (page_text (pdf_page e))) as Hstart.
  split.
  - rewrite length_imap. rewrite <- (length_fmap start_line), Hstart. by rewrite length_fmap.
  - intros i msg Hmsg. rewrite list_lookup_imap in Hmsg.
    destruct (find_entries_on_page (page_text (pdf_page e)) !! i) as [b|] eqn:Hb; [|done].
    injection Hmsg as <-.
    pose proof (find_entries_good (page_text (pdf_page e))) as Hgood.
    rewrite Forall_lookup in Hgood.
    destruct (Hgood _ _ Hb) as (j & Hj & _ & _ & h & rest & Hlines & Hh & _).
    assert ((start_line <$> find_entries_on_page (page_text (pdf_page e))) !! i = Some (Some j))
      as Hi by (by rewrite list_lookup_fmap, Hb; cbn; rewrite Hj).
    rewrite Hstart, list_lookup_fmap in Hi.
    destruct (heading_indices (page_text (pdf_page e)) !! i) as [j'|] eqn:Hj'; [|done].
    injection Hi as ->.
    exists j, h. eexists. rewrite Hlines. cbn [head default].
    split; [reflexivity|]. split; [reflexivity | exact Hh].
Qed.

Lemma list_mode_only_prints_witness :
  arg_list list_args = true
  ∧ ∃ w', main sample_env list_args one_record_world = (Ok tt, w')
          ∧ store_file w' = store_file one_record_world
          ∧ List.length (printed w') = 4.
Proof.
  split; [reflexivity|].
  destruct (list_mode_only_prints sample_env list_args one_record_world eq_refl)
    as (msgs & Hrun & Hlen & _).
  eexists. split; [exact Hrun|]. split; [reflexivity|].
  cbn [printed]. rewrite !length_app, Hlen.
  assert (List.length (heading_indices (page_text (pdf_page sample_env))) = 2) as ->
    by (vm_compute; reflexivity).
  reflexivity.
Defined.

(** X17.  A run writes the store only when asked to save outside list
    mode: in list mode, or without [--save], the store file after the run is
    the one before it, whether the run returns or raises. *)
Theorem store_written_only_on_save (e : env) (a : args) (w : world) :
  arg_list a = true ∨ arg_save a = false →
  store_file (main e a w).2 = store_file w.
Proof.
  intros Hflags. unfold main. destruct (arg_list a) eqn:Hlist.
  - unfold list_entries.
    apply (keeps_store_bind (print MsgEntriesOnPage)); [apply keeps_store_print|].
    intros _. apply keeps_store_bind; [|intros; apply keeps_store_print].
    intros w1. by rewrite print_entries_run.
  - destruct Hflags as [?|Hsave]; [done|]. rewrite Hsave.
    apply (keeps_store_bind (print _)); [apply keeps_store_print|]. intros _.
    apply keeps_store_bind; [apply keeps_store_extract|]. intros r.
    apply keeps_store_bind; [apply keeps_store_lookup_coordinates|]. intros coordinates.
    apply keeps_store_bind; [apply keeps_store_print | intros; apply keeps_store_print].
Qed.

Lemma store_written_only_on_save_witness :
  (arg_list list_args = true ∨ arg_save list_args = false)
  ∧ store_file (main sample_env list_args one_record_world).2
    = store_file one_record_world.
Proof.
  assert (arg_list list_args = true ∨ arg_save list_args = false) as Hflags
    by (left; reflexivity).
  split; [exact Hflags|].
  exact (store_written_only_on_save sample_env list_args one_record_world Hflags).
Defined.

Section SavingRun.

Implicit Types (entry : dict) (coordinates : option dict).




End SavingRun.



(** ** Heading lines *)

Lemma upper_not_space a : is_upper_AZ a = true → is_space a = false.
Proof. destruct a as [[] [] [] [] [] [] [] []]; vm_compute; congruence. Qed.

Lemma star_greedy_all p k t : ∀ pos u c r,
  all_chars p t = true →
  match u with String x _ => p x = false | EmptyString => True end →
  k (pos + String.length t) u c = Some r →
  star_greedy p k pos (t +:+ u) c = Some r.
Proof.
  induction t as [|y t IH]; intros pos u c r Hall Hu Hk.
  - rewrite app_nil. cbn [String.length] in Hk. rewrite Nat.add_0_r in Hk.
    destruct u as [|x u]; cbn [star_greedy]; [done|]. by rewrite Hu.
  - rewrite app_cons. cbn [all_chars] in Hall. apply andb_true_iff in Hall as [Hy Hall].
    cbn [star_greedy]. rewrite Hy. erewrite IH; [done|done|done|].
    cbn [String.length] in Hk. by rewrite Nat.add_succ_r in Hk.
Qed.

Lemma heading_tail_match pos a b c :
  is_upper_AZ a = true → is_upper_AZ b = true →
  rmatch heading_tail finish pos (String "," (String " " (String a (String b "")))) c
  = Some (pos + 4, "", set_cap 2 (String a (String b "")) c).
Proof.
  intros Ha Hb. unfold heading_tail. cbn [rmatch lit one star_greedy rep].
  unfold Pat.ws. rewrite (upper_not_space a Ha), Ha, Hb.
  change (is_space " ") with true. change (Ascii.eqb "," ",") with true.
  change (at_end "") with true. cbv iota.
  replace (S (S (S (S pos))) - S (S pos)) with 2 by lia.
  replace (S (S (S (S pos)))) with (pos + 4) by lia. done.
Qed.

Lemma heading_tail_code_match pos a b x c :
  is_upper_AZ a = true → is_upper_AZ b = true → is_upper_AZ x = true →
  rmatch heading_tail finish pos
    (String "," (String " " (String a (String b (String " " (String "(" (String x (String ")" "")))))))) c
  = Some (pos + 8, "", set_cap 3 (String x "") (set_cap 2 (String a (String b "")) c)).
Proof.
  intros Ha Hb Hx. unfold heading_tail. cbn [rmatch lit one star_greedy rep].
  unfold Pat.ws. rewrite (upper_not_space a Ha), Ha, Hb, Hx.
  change (is_space " ") with true. change (is_space "(") with false.
  change (Ascii.eqb "," ",") with true. change (Ascii.eqb "(" "(") with true.
  change (Ascii.eqb ")" ")") with true.
  change (at_end "") with true. cbv iota.
  replace (S (S (S (S pos))) - S (S pos)) with 2 by lia.
  replace (S (S (S (S (S (S (S pos)))))) - S (S (S (S (S (S pos)))))) with 1 by lia.
  replace (S (S (S (S (S (S (S (S pos)))))))) with (pos + 8) by lia. done.
Qed.

Lemma substring_prefix t : ∀ u, substring 0 (String.length t) (t +:+ u) = t.
Proof.
  induction t as [|x t IH]; intros u.
  - rewrite app_nil. by destruct u.
  - rewrite app_cons. cbn [String.length substring]. by rewrite IH.
Qed.

Lemma rstrip_app_keep p t u :
  u ≠ "" → rstrip_by p u = u → rstrip_by p (t +:+ u) = t +:+ u.
Proof.
  intros Hu Hr. induction t as [|x t IH]; [by rewrite app_nil|].
  rewrite app_cons. cbn [rstrip_by]. rewrite IH.
  destruct (t +:+ u) eqn:E; [|done].
  destruct t; [rewrite app_nil in E; done | by rewrite app_cons in E].
Qed.

Lemma heading_text_strip city st code :
  is_city city = true → is_state st = true → is_code code = true →
  strip (heading_text city st code) = heading_text city st code.
Proof.
  intros Hc Hs Hx. unfold strip, heading_text.
  destruct city as [|c0 [|c1 t]]; try done.
  destruct st as [|a [|b [|]]]; try done.
  cbn in Hc, Hs. apply andb_prop in Hc as [Hc _]. apply andb_prop in Hc as [Hc0 _].
  apply andb_prop in Hs as [Ha Hb].
  rewrite rstrip_app_keep.
  - rewrite app_cons. cbn [lstrip_by]. by rewrite (upper_not_space c0 Hc0).
  - done.
  - apply rstrip_app_keep; [by destruct code|].
    destruct code as [x|]; [done|].
    rewrite !app_cons, app_nil. cbn [rstrip_by].
    by rewrite (upper_not_space a Ha), (upper_not_space b Hb).
Qed.

Lemma heading_match city st code :
  is_city city = true → is_state st = true → is_code code = true →
  ∃ m, re_match Pat.heading (heading_text city st code) = Some m
       ∧ group m 1 = Some city
       ∧ group m 2 = Some st
       ∧ group m 3 = (λ x, String x "") <$> code.
Proof.
  intros Hc Hs Hx. unfold heading_text.
  destruct city as [|c0 [|c1 t]]; try done.
  destruct st as [|a [|b [|]]]; try done.
  cbn in Hc, Hs. apply andb_prop in Hc as [Hc Ht]. apply andb_prop in Hc as [Hc0 Hc1].
  apply andb_prop in Hs as [Ha Hb].
  unfold re_match.
  change Pat.heading
    with (Bos >> Grp 1 (Cls is_upper_AZ >> Plus Pat.city_char) >> heading_tail)%re.
  rewrite !app_cons, !app_nil.
  cbn [rmatch one]. change (Nat.eqb 0 0) with true. cbv iota. rewrite Hc0, Hc1.
  destruct code as [x|]; cbn [code_suffix]; rewrite ?app_nil.
  - eexists. split.
    + eapply star_greedy_all; [exact Ht | done |].
      cbv beta. apply (heading_tail_code_match _ a b x); done.
    + unfold group, set_cap. cbn [snd Nat.eqb fmap option_fmap option_map].
      rewrite Nat.sub_0_r. cbn [Nat.add substring]. by rewrite substring_prefix.
  - eexists. split.
    + eapply star_greedy_all; [exact Ht | done |].
      cbv beta. apply (heading_tail_match _ a b); done.
    + unfold group, set_cap. cbn [snd Nat.eqb fmap option_fmap option_map].
      rewrite Nat.sub_0_r. cbn [Nat.add substring]. by rewrite substring_prefix.
Qed.

(** X9.  A heading as the guide prints it is read back: for a city made of
    a capital and one or more letters, spaces, periods or apostrophes, a
    state of two capitals and an optional hook-up code of one capital, the
    line [city, ST] or [city, ST (X)] is a heading line, and parsing a block
    that starts with it stores the city trimmed of white space, the state as
    written and the code, or [None] when the line has none. *)
Theorem heading_round_trip city st code rest entry :
  is_city city = true → is_state st = true → is_code code = true →
  is_heading_line (heading_text city st code) = true
  ∧ parse_heading (heading_text city st code :: rest) entry !! "city"
    = Some (VStr (strip city))
  ∧ parse_heading (heading_text city st code :: rest) entry !! "state" = Some (VStr st)
  ∧ parse_heading (heading_text city st code :: rest) entry !! "hookup_code"
    = Some (VAtom (from_option (λ x, AStr (String x "")) ANone code)).
Proof.
  intros Hc Hs Hx.
  destruct (heading_match city st code Hc Hs Hx) as (m & Hm & H1 & H2 & H3).
  unfold is_heading_line. cbn [parse_heading].
  rewrite (heading_text_strip city st code Hc Hs Hx), Hm.
  split; [done|]. unfold group1. rewrite H1, H2, H3.
  split; [|split].
  - by rewrite lookup_insert_ne, lookup_insert_ne, lookup_insert_eq.
  - by rewrite lookup_insert_ne, lookup_insert_eq.
  - rewrite lookup_insert_eq. by destruct code.
Qed.

Lemma heading_round_trip_witness :
  is_heading_line "St. George, UT (F)" = true
  ∧ parse_heading ["St. George, UT (F)"; "Campground: Sand Hollow."] ∅ !! "city"
    = Some (VStr "St. George").
Proof.
  pose proof (heading_round_trip "St. George" "UT" (Some "F"%char)
                ["Campground: Sand Hollow."] ∅ eq_refl eq_refl eq_refl) as (H1 & H2 & _).
  split; [exact H1 | exact H2].
Defined.
